(** * fhir-parser: ingestion of implementation guides and of the
      specification cache

    A shallow embedding of [src/fhir_parser/ig.py] (reading resource files,
    unrolling Bundles through a work queue, classifying the leaves) and of
    [src/fhir_parser/fhirloader.py] (the cache-aware loader and the ZIP
    expansion), with the statements of their specification. *)

From stdpp Require Import gmap strings list fin_maps.
From Stdlib Require Import ZArith Lia Ascii.

Set Default Proof Using "Type".

(** ** Python values, exceptions and built-ins shared by both files *)

Module Py.

(** The OS-level failures of [pathlib], [open] and [zipfile]. *)
Inductive oserror : Type :=
| FileNotFoundError
| FileExistsError
| NotADirectoryError
| IsADirectoryError.

(** The exceptions the two files can raise.  [Exception_ msg] is the plain
    [raise Exception(...)] of the loader. *)
Inductive exn : Type :=
| AssertionError
| KeyError
| TypeError
| IndexError
| JSONDecodeError
| BadZipFile
| DownloadError
| OSError (e : oserror)
| Exception_ (msg : string).

(** The outcome of a call: a value or a raised exception. *)
Inductive result (A : Type) : Type :=
| Ok (a : A)
| Raise (e : exn).
Arguments Ok {A} a.
Arguments Raise {A} e.

Definition is_ok {A} (r : result A) : bool :=
  match r with Ok _ => true | Raise _ => false end.

(** A document as [json.load] returns it: [None], [bool], [int], [str],
    [list] and [dict] (the items of the dict in insertion order; numbers
    are integers). *)
#[warnings="-register-all"] Inductive json : Type :=
| JNull
| JBool (b : bool)
| JNum (z : Z)
| JStr (s : string)
| JArr (items : list json)
| JObj (members : list (string * json)).

(** [d.get(k)] on the items of a dict. *)
Fixpoint obj_lookup (k : string) (kvs : list (string * json)) : option json :=
  match kvs with
  | [] => None
  | (k', v) :: rest => if bool_decide (k' = k) then Some v else obj_lookup k rest
  end.

(** [v == s] for a string literal [s]: only a [str] equals a [str]. *)
Definition eq_str (v : json) (s : string) : bool :=
  match v with
  | JStr s' => bool_decide (s' = s)
  | _ => false
  end.

(** [k in u] for two strings: [k] occurs in [u]. *)
Definition substring (k u : string) : bool :=
  match String.index 0 k u with Some _ => true | None => false end.

(** [k in v] for a string key [k]: key membership in a dict, element
    membership in a list, substring test in a string, [TypeError] on the
    values that are not iterable. *)
Definition contains (k : string) (v : json) : result bool :=
  match v with
  | JObj kvs => Ok (bool_decide (is_Some (obj_lookup k kvs)))
  | JArr items => Ok (existsb (λ x, eq_str x k) items)
  | JStr s => Ok (substring k s)
  | JNull | JBool _ | JNum _ => Raise TypeError
  end.

(** [v[k]] for a string key [k]: [KeyError] on a dict without the key,
    [TypeError] on every other value. *)
Definition getitem (v : json) (k : string) : result json :=
  match v with
  | JObj kvs =>
      match obj_lookup k kvs with
      | Some x => Ok x
      | None => Raise KeyError
      end
  | _ => Raise TypeError
  end.

Fixpoint chars (s : string) : list json :=
  match s with
  | EmptyString => []
  | String c rest => JStr (String c EmptyString) :: chars rest
  end.

(** [for e in v]: the elements of a list, the keys of a dict, the
    characters of a string; [TypeError] otherwise. *)
Definition iter (v : json) : result (list json) :=
  match v with
  | JArr items => Ok items
  | JObj kvs => Ok (map (λ kv, JStr (fst kv)) kvs)
  | JStr s => Ok (chars s)
  | JNull | JBool _ | JNum _ => Raise TypeError
  end.

(** The keys of a Python dict filled from JSON values: [None], an [int]
    ([True] and [False] hash and compare as [1] and [0]) or a [str]. *)
Inductive pykey : Type :=
| KNone
| KInt (z : Z)
| KStr (s : string).

#[global] Instance pykey_eq_dec : EqDecision pykey.
Proof. solve_decision. Defined.

Definition pykey_enc (k : pykey) : unit + (Z + string) :=
  match k with
  | KNone => inl ()
  | KInt z => inr (inl z)
  | KStr s => inr (inr s)
  end.

Definition pykey_dec (x : unit + (Z + string)) : pykey :=
  match x with
  | inl _ => KNone
  | inr (inl z) => KInt z
  | inr (inr s) => KStr s
  end.

#[global] Instance pykey_countable : Countable pykey.
Proof. apply (inj_countable' pykey_enc pykey_dec). by intros []. Defined.

(** [hash(v)] as a dict key; lists and dicts are unhashable. *)
Definition hashable (v : json) : result pykey :=
  match v with
  | JNull => Ok KNone
  | JBool b => Ok (KInt (if b then 1 else 0))
  | JNum z => Ok (KInt z)
  | JStr s => Ok (KStr s)
  | JArr _ | JObj _ => Raise TypeError
  end.

(** The number of constructors of a document: the measure the work queue
    decreases on. *)
Fixpoint json_size (j : json) : nat :=
  match j with
  | JArr items => S (list_sum (map json_size items))
  | JObj kvs => S (list_sum (map (λ kv, json_size (snd kv)) kvs))
  | _ => 1
  end.

End Py.
Export Py.

(** ** A state and exception monad

    Python code mutates its objects and may raise at any point; what was
    mutated before the exception stays mutated.  A computation therefore
    takes the state and returns an outcome together with the state reached. *)

Module StateExn.

Definition M (S A : Type) : Type := S → result A * S.

#[global] Instance M_ret {S} : MRet (M S) := λ A a s, (Ok a, s).

#[global] Instance M_bind {S} : MBind (M S) := λ A B f c s,
  match c s with
  | (Ok a, s') => f a s'
  | (Raise e, s') => (Raise e, s')
  end.

Definition raise {S A} (e : exn) : M S A := λ s, (Raise e, s).

Definition lift {S A} (r : result A) : M S A := λ s, (r, s).

Definition get {S} : M S S := λ s, (Ok s, s).

Definition modify {S} (f : S → S) : M S unit := λ s, (Ok (), f s).

(** [assert b]. *)
Definition assert {S} (b : bool) : M S unit :=
  if b then mret () else raise AssertionError.

(** [for x in l: f(x)]. *)
Fixpoint for_each {S A} (f : A → M S unit) (l : list A) : M S unit :=
  match l with
  | [] => mret ()
  | x :: rest => f x;; for_each f rest
  end.

End StateExn.
Export StateExn.

(** ** [ig.py]: reading, flattening and classifying resources *)

Module Ig.

(** A file of the implementation guide: what [json.load] makes of it. *)
Inductive file_content : Type :=
| Malformed
| Parsed (doc : json).

Record ig_file : Type := IgFile { file_name : string; file_body : file_content }.

(** The messages handed to [LOGGER]. *)
Inductive message : Type :=
| MissingResourceType (file : string)
| CodeSystemNoConcepts (url : json)
| UnknownResourceType (resourceType : json)
| Found (valuesets codesystems : nat).

Inductive diagnostic : Type :=
| Warning (m : message)
| Info (m : message).

(** [fhirspec] is a library, not part of this repository.  Its constructor
    [FHIRCodeSystem(spec, parsed)] may refuse a record; what it raises
    then, and the object it makes of a record it accepts, are what an
    instance of this class says. *)
Class Fhirspec : Type := { FHIRCodeSystem : json → result json }.

(** The constructor that accepts every record and keeps it as it is: the
    instance the examples are run with. *)
Definition accepting : Fhirspec := {| FHIRCodeSystem := λ parsed, Ok parsed |}.

(** The objects [add_igs_to_spec] works on: its two locals, the two
    dictionaries of [spec] it fills, and the log.  [fhirspec.FHIRValueSet]
    wraps the record it is built from, and [valuesets] holds that record;
    [codesystems] holds what [FHIRCodeSystem] has made of a record. *)
Record state : Type := State {
  profiles : list json;
  resource_queue : list json;
  valuesets : gmap pykey json;
  codesystems : gmap pykey json;
  log : list diagnostic
}.

Definition with_queue (q : list json) (s : state) : state :=
  State (profiles s) q (valuesets s) (codesystems s) (log s).

Definition with_log (l : list diagnostic) (s : state) : state :=
  State (profiles s) (resource_queue s) (valuesets s) (codesystems s) l.

Definition warning (m : message) : M state unit :=
  modify (λ s, with_log (log s ++ [Warning m]) s).

Definition info (m : message) : M state unit :=
  modify (λ s, with_log (log s ++ [Info m]) s).

(** [resource_queue.put(r)]. *)
Definition put (r : json) : M state unit :=
  modify (λ s, with_queue (resource_queue s ++ [r]) s).

(** [resource_queue.get()] leaves the rest of the queue behind. *)
Definition set_queue (q : list json) : M state unit := modify (with_queue q).

(** [profiles.append(parsed)]. *)
Definition append_profile (parsed : json) : M state unit :=
  modify (λ s, State (profiles s ++ [parsed]) (resource_queue s) (valuesets s)
                     (codesystems s) (log s)).

(** [spec.valuesets[k] = FHIRValueSet(spec, parsed)]. *)
Definition store_valueset (k : pykey) (parsed : json) : M state unit :=
  modify (λ s, State (profiles s) (resource_queue s) (<[k := parsed]> (valuesets s))
                     (codesystems s) (log s)).

(** [spec.codesystems[k] = codesystem], for the object [codesystem] the
    constructor has returned. *)
Definition store_codesystem (k : pykey) (codesystem : json) : M state unit :=
  modify (λ s, State (profiles s) (resource_queue s) (valuesets s)
                     (<[k := codesystem]> (codesystems s)) (log s)).

(** [json.load(f)]. *)
Definition json_load (file : ig_file) : M state json :=
  match file_body file with
  | Malformed => raise JSONDecodeError
  | Parsed doc => mret doc
  end.

(** The body of [for file in ig_files] (lines 36-41). *)
Definition read_file (file : ig_file) : M state unit :=
  parsed ← json_load file;
  present ← lift (contains "resourceType" parsed);
  if negb present
  then warning (MissingResourceType (file_name file))
  else put parsed.

(** Line 59. *)
Definition skip_codesystem (parsed : json) : M state unit :=
  url ← lift (getitem parsed "url");
  warning (CodeSystemNoConcepts url).

(** The Bundle branch (lines 46-48). *)
Definition expand_bundle (parsed : json) : M state unit :=
  has_entry ← lift (contains "entry" parsed);
  if (has_entry : bool) then
    entry ← lift (getitem parsed "entry");
    es ← lift (iter entry);
    for_each (λ e, r ← lift (getitem e "resource"); put r) es
  else mret ().

(** A record reaches [classify], the flattener yields it, when it has a
    [resourceType] other than ["Bundle"]. *)
Definition is_leaf (parsed : json) : bool :=
  match getitem parsed "resourceType" with
  | Ok resourceType => negb (eq_str resourceType "Bundle")
  | Raise _ => false
  end.

(** A Bundle whose entries carry the resources [rs], in this order. *)
Definition is_bundle_of (b : json) (rs : list json) : Prop :=
  getitem b "resourceType" = Ok (JStr "Bundle") ∧
  ∃ es, getitem b "entry" = Ok (JArr es) ∧
        Forall2 (λ e r, getitem e "resource" = Ok r) es rs.

(** The Bundle with exactly these resources and no other field. *)
Definition bundle (rs : list json) : json :=
  JObj [ ("resourceType", JStr "Bundle");
         ("entry", JArr (map (λ r, JObj [("resource", r)]) rs)) ].

(** The size of the documents waiting in the queue. *)
Definition weight (q : list json) : nat := list_sum (map json_size q).

Section Spec.

Context {fhirspec : Fhirspec}.

(** Line 57.  The right-hand side of the assignment comes first: the
    constructor is called, and may raise, before the key [parsed["url"]]
    is read and hashed. *)
Definition keep_codesystem (parsed : json) : M state unit :=
  codesystem ← lift (FHIRCodeSystem parsed);
  url ← lift (getitem parsed "url");
  k ← lift (hashable url);
  store_codesystem k codesystem.

(** The branches of the loop body that are not the Bundle branch
    (lines 49-63). *)
Definition classify (resourceType parsed : json) : M state unit :=
  if eq_str resourceType "StructureDefinition" then
    append_profile parsed
  else if eq_str resourceType "ValueSet" then
    has_url ← lift (contains "url" parsed);
    assert has_url;;
    url ← lift (getitem parsed "url");
    k ← lift (hashable url);
    store_valueset k parsed
  else if eq_str resourceType "CodeSystem" then
    has_url ← lift (contains "url" parsed);
    assert has_url;;
    has_content ← lift (contains "content" parsed);
    if (has_content : bool) then
      has_concept ← lift (contains "concept" parsed);
      if (has_concept : bool) then keep_codesystem parsed else skip_codesystem parsed
    else skip_codesystem parsed
  else
    warning (UnknownResourceType resourceType).

(** What the loop does with the record it took from the queue
    (lines 44-63). *)
Definition dispatch (parsed : json) : M state unit :=
  resourceType ← lift (getitem parsed "resourceType");
  if eq_str resourceType "Bundle"
  then expand_bundle parsed
  else classify resourceType parsed.

(** One iteration: [parsed = resource_queue.get()], then the dispatch. *)
Definition iteration (parsed : json) (rest : list json) : M state unit :=
  set_queue rest;; dispatch parsed.

(** [while not resource_queue.empty()] (lines 42-63).  [None] when the
    iterations allowed by [fuel] do not empty the queue. *)
Fixpoint while_loop (fuel : nat) (s : state) : option (result unit * state) :=
  match resource_queue s with
  | [] => Some (Ok (), s)
  | parsed :: rest =>
      match fuel with
      | O => None
      | S fuel' =>
          match iteration parsed rest s with
          | (Ok _, s') => while_loop fuel' s'
          | (Raise e, s') => Some (Raise e, s')
          end
      end
  end.

(** The records [resource_queue.get()] returned, in order, while the loop
    ran (for at most [fuel] iterations). *)
Fixpoint processed (fuel : nat) (s : state) : list json :=
  match resource_queue s, fuel with
  | parsed :: rest, S fuel' =>
      parsed :: match iteration parsed rest s with
                | (Ok _, s') => processed fuel' s'
                | (Raise _, _) => []
                end
  | _, _ => []
  end.

(** The records the flattener yields: those that reach [classify]. *)
Definition yielded (fuel : nat) (s : state) : list json :=
  List.filter is_leaf (processed fuel s).

(** [add_igs_to_spec] up to the summary it logs (lines 33-68).  The profile
    pass that follows hands [profiles] to [fhirspec]. *)
Definition add_igs_to_spec (fuel : nat) (ig_files : list ig_file) (s : state)
  : option (result unit * state) :=
  let start := State [] [] (valuesets s) (codesystems s) (log s) in
  match for_each read_file ig_files start with
  | (Raise e, s1) => Some (Raise e, s1)
  | (Ok _, s1) =>
      match while_loop fuel s1 with
      | None => None
      | Some (Raise e, s2) => Some (Raise e, s2)
      | Some (Ok _, s2) =>
          Some (info (Found (size (valuesets s2)) (size (codesystems s2))) s2)
      end
  end.

End Spec.

End Ig.

(** ** Strings and paths as [str] and [pathlib.PurePosixPath] have them *)

Module Path.

Definition slash : ascii := "/"%char.

(** [s.startswith(p)]. *)
Fixpoint startswith (s p : string) {struct p} : bool :=
  match p, s with
  | EmptyString, _ => true
  | String a p', String b s' => bool_decide (a = b) && startswith s' p'
  | String _ _, EmptyString => false
  end.

(** [s[n:]]. *)
Fixpoint drop_str (n : nat) (s : string) : string :=
  match n, s with
  | O, _ => s
  | S n', String _ rest => drop_str n' rest
  | S _, EmptyString => EmptyString
  end.

(** [s[-n:]]. *)
Definition last_chars (n : nat) (s : string) : string :=
  drop_str (String.length s - n) s.

(** [s.endswith('/')]. *)
Definition endswith_slash (s : string) : bool :=
  bool_decide (last_chars 1 s = "/").

(** [s.lstrip(...)] and [s.rstrip(...)] for a class of characters. *)
Fixpoint lstrip_by (P : ascii → bool) (s : string) : string :=
  match s with
  | EmptyString => EmptyString
  | String c rest => if P c then lstrip_by P rest else s
  end.

Fixpoint rstrip_by (P : ascii → bool) (s : string) : string :=
  match s with
  | EmptyString => EmptyString
  | String c rest =>
      match rstrip_by P rest with
      | EmptyString => if P c then EmptyString else String c EmptyString
      | rest' => String c rest'
      end
  end.

(** [str.isspace] on the code points below 256: TAB to CR, FS to US, the
    space, NEL and the no-break space. *)
Definition is_space (c : ascii) : bool :=
  let n := nat_of_ascii c in
  (((9 <=? n) && (n <=? 13)) || ((28 <=? n) && (n <=? 32))
   || (n =? 133) || (n =? 160))%nat.

(** [s.strip()]. *)
Definition strip (s : string) : string := lstrip_by is_space (rstrip_by is_space s).

(** [s.rstrip('/')]. *)
Definition rstrip_slash (s : string) : string :=
  rstrip_by (λ c, bool_decide (c = slash)) s.

(** The truth value of a string: it is not empty. *)
Definition truthy (s : string) : bool := negb (bool_decide (s = "")).

(** [s.split('/')]. *)
Fixpoint split_slash (s : string) : list string :=
  match s with
  | EmptyString => [""]
  | String c rest =>
      if bool_decide (c = slash) then "" :: split_slash rest
      else match split_slash rest with
           | [] => [String c EmptyString]
           | seg :: segs => String c seg :: segs
           end
  end.

(** ['/' in s]. *)
Fixpoint has_slash (s : string) : bool :=
  match s with
  | EmptyString => false
  | String c rest => bool_decide (c = slash) || has_slash rest
  end.

(** A path is the tuple of its [parts]; an absolute one starts with its
    root, ["/"] or ["//"]. *)
Abbreviation path := (list string).

Definition is_anchor (part : string) : bool := startswith part "/".

(** [posixpath.splitroot]: the root is ["//"] for exactly two leading
    slashes, ["/"] for any other number of them. *)
Definition splitroot (s : string) : string * string :=
  if negb (startswith s "/") then ("", s)
  else if startswith s "//" && negb (startswith s "///") then ("//", drop_str 2 s)
  else ("/", drop_str 1 s).

(** [pathlib.Path(s).parts]: the root if any, then the segments that are
    neither empty nor ["."]. *)
Definition parts (s : string) : path :=
  let '(root, rel) := splitroot s in
  let segs := filter (λ x, x ≠ "" ∧ x ≠ ".") (split_slash rel) in
  if truthy root then root :: segs else segs.

Definition is_root (p : path) : bool :=
  match p with
  | [] => true
  | [r] => is_anchor r
  | _ => false
  end.

(** [p.parent]. *)
Definition parent (p : path) : path := if is_root p then p else removelast p.

(** [p.name]. *)
Definition name (p : path) : string := if is_root p then "" else List.last p "".

(** [p / q]: an absolute [q] replaces [p]. *)
Definition joinpath (p q : path) : path :=
  match q with
  | r :: _ => if is_anchor r then q else (p ++ q)%list
  | [] => p
  end.

(** [os.path.normpath] on the parts: [".."] cancels the part before it,
    is dropped at the root and is kept at the start of a relative path. *)
Fixpoint normpath_go (done : path) (todo : path) : path :=
  match todo with
  | [] => rev done
  | c :: rest =>
      if bool_decide (c = "..") then
        match done with
        | [] => normpath_go [c] rest
        | d :: done' =>
            if is_anchor d then normpath_go done rest
            else if bool_decide (d = "..") then normpath_go (c :: done) rest
            else normpath_go done' rest
        end
      else normpath_go (c :: done) rest
  end.

Definition normpath (p : path) : path := normpath_go [] p.

End Path.
Export Path.

(** ** The file system the loader works on *)

Module Fs.

(** An entry of a ZIP archive ([zipfile.ZipInfo] and the bytes
    [z.open(m).read()] returns for it). *)
Record ZipInfo : Type := Member { filename : string; data : string }.

#[global] Instance ZipInfo_eq_dec : EqDecision ZipInfo.
Proof. solve_decision. Defined.

(** [m.is_dir()]. *)
Definition is_dir (m : ZipInfo) : bool := endswith_slash (filename m).

(** What a regular file holds: bytes, or the members [zipfile.ZipFile]
    reads from it; [zipfile] refuses every other file. *)
Inductive content : Type :=
| Bytes (s : string)
| Zip (members : list ZipInfo).

Inductive node : Type :=
| Dir
| File (c : content).

(** The directories and files, by the parts of their resolved path.  The
    roots and the current directory (the empty path) always exist. *)
Abbreviation fs := (gmap path node).

(** Where the resolution of a path ends. *)
Inductive lookup_result : Type :=
| IsDir (key : path)
| IsFile (key : path) (c : content)
| Missing (key : path)       (* the parent is a directory, the name is free *)
| NoEntry                    (* ENOENT on a component before the last *)
| NotDir.                     (* ENOTDIR: a component before the last is a file *)

(** Resolution from the directory [cur], component by component. *)
Fixpoint walk (σ : fs) (cur : path) (comps : list string) : lookup_result :=
  match comps with
  | [] => IsDir cur
  | c :: rest =>
      if bool_decide (c = "..") then walk σ (parent cur) rest
      else
        let key := (cur ++ [c])%list in
        match σ !! key with
        | Some Dir => walk σ key rest
        | Some (File d) => match rest with [] => IsFile key d | _ => NotDir end
        | None => match rest with [] => Missing key | _ => NoEntry end
        end
  end.

Definition resolve (σ : fs) (p : path) : lookup_result :=
  match p with
  | r :: comps => if is_anchor r then walk σ [r] comps else walk σ [] p
  | [] => IsDir []
  end.

(** [p.exists()], [p.is_dir()], [p.is_file()]. *)
Definition path_exists (σ : fs) (p : path) : bool :=
  match resolve σ p with
  | IsDir _ | IsFile _ _ => true
  | _ => false
  end.

Definition path_is_dir (σ : fs) (p : path) : bool :=
  match resolve σ p with
  | IsDir _ => true
  | _ => false
  end.

Definition path_is_file (σ : fs) (p : path) : bool :=
  match resolve σ p with
  | IsFile _ _ => true
  | _ => false
  end.

(** [os.mkdir(p)]. *)
Definition os_mkdir (p : path) (σ : fs) : result fs :=
  match resolve σ p with
  | Missing key => Ok (<[key := Dir]> σ)
  | IsDir _ | IsFile _ _ => Raise (OSError FileExistsError)
  | NoEntry => Raise (OSError FileNotFoundError)
  | NotDir => Raise (OSError NotADirectoryError)
  end.

(** [pathlib.Path.mkdir(parents, exist_ok)]: try [os.mkdir]; on
    [FileNotFoundError] make the parent first (when [parents]); on any
    other failure succeed only when [exist_ok] and the path is a
    directory.  The parent is shorter, so [length p] rounds suffice. *)
Fixpoint mkdir_rec (fuel : nat) (parents exist_ok : bool) (p : path) (σ : fs)
  : result fs :=
  match os_mkdir p σ with
  | Ok σ' => Ok σ'
  | Raise (OSError FileNotFoundError) =>
      if negb parents || bool_decide (parent p = p)
      then Raise (OSError FileNotFoundError)
      else
        match fuel with
        | O => Raise (OSError FileNotFoundError)
        | S fuel' =>
            match mkdir_rec fuel' true true (parent p) σ with
            | Ok σ1 => mkdir_rec fuel' false exist_ok p σ1
            | Raise e => Raise e
            end
        end
  | Raise e => if exist_ok && path_is_dir σ p then Ok σ else Raise e
  end.

Definition mkdir (parents exist_ok : bool) (p : path) (σ : fs) : result fs :=
  mkdir_rec (length p) parents exist_ok p σ.

(** [open(p, 'wb').write(c)]. *)
Definition write_file (p : path) (c : content) (σ : fs) : result fs :=
  match resolve σ p with
  | Missing key | IsFile key _ => Ok (<[key := File c]> σ)
  | IsDir _ => Raise (OSError IsADirectoryError)
  | NoEntry => Raise (OSError FileNotFoundError)
  | NotDir => Raise (OSError NotADirectoryError)
  end.

(** [shutil.rmtree(p)]: the directory and everything below it. *)
Definition rmtree (p : path) (σ : fs) : result fs :=
  match resolve σ p with
  | IsDir key => Ok (filter (λ kv, ¬ key `prefix_of` kv.1) σ)
  | IsFile _ _ => Raise (OSError NotADirectoryError)
  | _ => Raise (OSError FileNotFoundError)
  end.

(** [zipfile.ZipFile(p).infolist()]. *)
Definition infolist (p : path) (σ : fs) : result (list ZipInfo) :=
  match resolve σ p with
  | IsFile _ (Zip members) => Ok members
  | IsFile _ (Bytes _) => Raise BadZipFile
  | IsDir _ => Raise (OSError IsADirectoryError)
  | NotDir => Raise (OSError NotADirectoryError)
  | _ => Raise (OSError FileNotFoundError)
  end.

(** [σ'] has every directory of [σ], and a file wherever [σ] has one. *)
Definition grows (σ σ' : fs) : Prop :=
  ∀ key, match σ !! key with
         | Some Dir => σ' !! key = Some Dir
         | Some (File _) => ∃ c', σ' !! key = Some (File c')
         | None => True
         end.

End Fs.
Export Fs.

(** ** [fhirloader.py]: the cache and the expansion of archives *)

Module Loader.

Inductive log_message : Type :=
| Downloading (remote : string * option string)
| Extracting (filename : string)
| UsingCache.        (* 'Using cached resources, supply "-f" to re-download' *)

Inductive print_message : Type :=
| Url (url : string)
| Expanding (filepath target : path).

(** What the loader does besides changing files. *)
Inductive event : Type :=
| Deleted (p : path)            (* [shutil.rmtree] *)
| Fetched (url : string)        (* [fhirspec.download] *)
| Logged (m : log_message)      (* [logger.info] *)
| Printed (m : print_message).  (* [print] *)

Record world : Type := World { files : fs; events : list event }.

Definition emit (e : event) : M world unit :=
  modify (λ w, World (files w) (events w ++ [e])).

(** A file-system call: the files change when it succeeds. *)
Definition on_files (f : fs → result fs) : M world unit := λ w,
  match f (files w) with
  | Ok σ => (Ok (), World σ (events w))
  | Raise e => (Raise e, w)
  end.

(** The file-system calls [expand] issues for the members of an archive. *)
Inductive fs_op : Type :=
| MkdirP (p : path)                     (* [mkdir(parents=True, exist_ok=True)] *)
| WriteFile (p : path) (bytes : string).

Definition run_op (op : fs_op) : M world unit :=
  match op with
  | MkdirP p => on_files (mkdir true true p)
  | WriteFile p bytes => on_files (write_file p (Bytes bytes))
  end.

(** What a call leaves behind: a directory, or a regular file, at its
    path. *)
Definition op_done (σ : fs) (op : fs_op) : bool :=
  match op with
  | MkdirP p => path_is_dir σ p
  | WriteFile p _ => path_is_file σ p
  end.

(** The entry [m] of an archive is in the files at [p]: as a directory
    when it is a directory entry, as a regular file otherwise. *)
Definition extracted_at (σ : fs) (m : ZipInfo) (p : path) : bool :=
  if is_dir m then path_is_dir σ p else path_is_file σ p.

(** [m.filename.startswith('__MACOSX/')]. *)
Definition noise (m : ZipInfo) : bool := startswith (filename m) "__MACOSX/".

(** Lines 100-103. *)
Definition real_members (all_members : list ZipInfo) : list ZipInfo :=
  List.filter (λ m, negb (noise m)) all_members.

(** [pathlib.Path(m.filename).parts[0]]. *)
Definition top_level (m : ZipInfo) : result string :=
  match parts (filename m) with
  | [] => Raise IndexError
  | r :: _ => Ok r
  end.

(** The elements of the comprehension of lines 106-110, in the order of the
    members; it raises at the first member whose path has no part. *)
Fixpoint top_levels (members : list ZipInfo) : result (list string) :=
  match members with
  | [] => Ok []
  | m :: rest =>
      if truthy (strip (filename m)) then
        match top_level m with
        | Raise e => Raise e
        | Ok r =>
            match top_levels rest with
            | Ok rs => Ok (r :: rs)
            | Raise e => Raise e
            end
        end
      else top_levels rest
  end.

(** Lines 106-110: the set of the top-level names. *)
Definition roots (members : list ZipInfo) : result (gset string) :=
  match top_levels members with
  | Ok rs => Ok (list_to_set rs)
  | Raise e => Raise e
  end.

(** The body of the loop of the single-root case (lines 116-133). *)
Definition strip_root (root : string) (target : path) (m : ZipInfo) : list fs_op :=
  if negb (startswith (filename m) root) then []
  else
    let inner_path := parts (drop_str (String.length root) (filename m)) in
    match inner_path with
    | [] => []
    | _ :: _ =>
        let outpath := joinpath target inner_path in
        if is_dir m then [MkdirP outpath]
        else [MkdirP (parent outpath); WriteFile outpath (data m)]
    end.

(** [z.getinfo(name)]: the last member of that name. *)
Definition getinfo (name : string) (all_members : list ZipInfo) : result ZipInfo :=
  match List.filter (λ m, bool_decide (filename m = name)) all_members with
  | [] => Raise KeyError
  | m :: ms => Ok (List.last ms m)
  end.

(** The path [zipfile] extracts a member to: the segments of its name that
    are not empty, ["."] or [".."], below the target. *)
Definition arcname (m : ZipInfo) : path :=
  List.filter (λ x, negb (bool_decide (x = "") || bool_decide (x = ".")
                          || bool_decide (x = "..")))
              (split_slash (filename m)).

(** [z.extract(m, target)]: the upper directories, then the directory or
    the file. *)
Definition extract_member (target : path) (m : ZipInfo) : list fs_op :=
  let targetpath := normpath (target ++ arcname m)%list in
  if is_dir m then [MkdirP targetpath]
  else [MkdirP (parent targetpath); WriteFile targetpath (data m)].

(** [z.extractall(target, members=names)]. *)
Fixpoint extractall (target : path) (all_members : list ZipInfo) (names : list string)
  : result (list fs_op) :=
  match names with
  | [] => Ok []
  | n :: rest =>
      match getinfo n all_members with
      | Raise e => Raise e
      | Ok m =>
          match extractall target all_members rest with
          | Ok ops => Ok (extract_member target m ++ ops)%list
          | Raise e => Raise e
          end
      end
  end.

(** Lines 99-139: what [expand] asks of the file system for an archive with
    these members.  Nothing in these lines reads the file system, so the
    calls are the same whatever their outcome; they are then made in this
    order, and the first to fail ends the expansion. *)
Definition extraction (target : path) (all_members : list ZipInfo)
  : result (list fs_op) :=
  let real := real_members all_members in
  match roots real with
  | Raise e => Raise e
  | Ok rs =>
      if bool_decide (size rs = 1) then
        match elements rs with
        | [] => Raise KeyError
        | r :: _ =>
            let root := rstrip_slash r +:+ "/" in
            Ok (flat_map (strip_root root target) real)
        end
      else
        let members_to_extract :=
          map filename (List.filter (λ m, negb (noise m)) all_members) in
        extractall target all_members members_to_extract
  end.

(** [FHIRLoader.expand] (lines 86-139). *)
Definition expand (filepath target : path) : M world unit :=
  w ← get;
  assert (path_exists (files w) filepath && path_is_file (files w) filepath);;
  emit (Printed (Expanding filepath target));;
  on_files (mkdir true true target);;
  w' ← get;
  all_members ← lift (infolist filepath (files w'));
  ops ← lift (extraction target all_members);
  for_each run_op ops.

Section FHIRLoader.

(** [settings.SPECIFICATION_URL], the cache directory, the class attribute
    [needs] read through [self.__class__], and [fhirspec.download]: what a
    download of a URL into a directory does to the files, and the path it
    returns. *)
Variable base_url : string.
Variable cache : path.
Variable needs : list (string * (string * option string)).
Variable fetch : string → path → fs → result path * fs.

(** [download(url, download_directory=self.cache)]. *)
Definition call_fetch (url : string) : M world path := λ w,
  let '(r, σ) := fetch url cache (files w) in
  (r, World σ (events w ++ [Fetched url])).

(** [FHIRLoader.download] (lines 73-83). *)
Definition download (filename : string) : M world path :=
  let url := base_url +:+ "/" +:+ filename in
  emit (Printed (Url url));;
  call_fetch url.

(** Lines 58-62: where the archive is expanded. *)
Definition expand_target (expand_dir : option string) : M world path :=
  match expand_dir with
  | Some d =>
      if truthy d then
        let target := joinpath cache (parts d) in
        w ← get;
        (if negb (path_exists (files w) target)
         then on_files (mkdir false false target) else mret ());;
        mret target
      else mret cache
  | None => mret cache
  end.

(** The body of the loop over [needs] (lines 46-66); it returns the new
    value of [uses_cache]. *)
Definition check_file (force_cache : bool) (uses_cache : bool)
    (need : string * (string * option string)) : M world bool :=
  let '(local, remote) := need in
  let path_ := joinpath cache (parts local) in
  w ← get;
  if negb (path_exists (files w) path_) then
    (if force_cache
     then raise (Exception_ ("Resource missing from cache: " +:+ local))
     else mret ());;
    emit (Logged (Downloading remote));;
    let '(remote, expand_dir) := remote in
    filepath ← download remote;
    let filename := name filepath in
    (if bool_decide (".zip" = last_chars 4 filename) then
       emit (Logged (Extracting filename));;
       target ← expand_target expand_dir;
       expand filepath target
     else mret ());;
    mret uses_cache
  else mret true.

Fixpoint check_files (force_cache : bool) (uses_cache : bool)
    (entries : list (string * (string * option string))) : M world bool :=
  match entries with
  | [] => mret uses_cache
  | need :: rest =>
      u ← check_file force_cache uses_cache need;
      check_files force_cache u rest
  end.

(** [FHIRLoader.load] (lines 27-71). *)
Definition load (force_download force_cache : bool) : M world path :=
  (if force_download then assert (negb force_cache) else mret ());;
  w ← get;
  (if path_exists (files w) cache && force_download
   then emit (Deleted cache);; on_files (rmtree cache) else mret ());;
  w' ← get;
  (if negb (path_exists (files w') cache)
   then on_files (mkdir true false cache) else mret ());;
  uses_cache ← check_files force_cache false needs;
  (if (uses_cache : bool) then emit (Logged UsingCache) else mret ());;
  mret cache.

End FHIRLoader.

(** The class attribute [FHIRLoader.needs] (lines 15-19). *)
Definition FHIRLoader_needs : list (string * (string * option string)) :=
  [ ("version.info", ("version.info", None));
    ("examples-json.zip", ("examples-json.zip", Some "examples"));
    ("definitions.json.zip", ("definitions.json.zip", Some "definitions")) ].

End Loader.


(** ** The flattener on its own

    The loop of [add_igs_to_spec] unrolls Bundles and classifies the other
    records in one pass.  [flatten] is the first half alone: the records the
    loop hands to the classification, in the order of the work queue. *)

Module Flatten.
Import Ig.

(** [[e['resource'] for e in es]]. *)
Fixpoint resources (es : list json) : result (list json) :=
  match es with
  | [] => Ok []
  | e :: rest =>
      match getitem e "resource" with
      | Raise x => Raise x
      | Ok r =>
          match resources rest with
          | Ok rs => Ok (r :: rs)
          | Raise x => Raise x
          end
      end
  end.

(** What lines 46-48 put on the queue for the Bundle [parsed]. *)
Definition bundle_resources (parsed : json) : result (list json) :=
  match contains "entry" parsed with
  | Raise x => Raise x
  | Ok false => Ok []
  | Ok true =>
      match getitem parsed "entry" with
      | Raise x => Raise x
      | Ok entry =>
          match iter entry with
          | Raise x => Raise x
          | Ok es => resources es
          end
      end
  end.


(** [x] is the resource of an entry of the Bundle [b]. *)
Definition entry_resource (b x : json) : Prop :=
  getitem b "resourceType" = Ok (JStr "Bundle") ∧
  ∃ entry es e, getitem b "entry" = Ok entry ∧ iter entry = Ok es
                ∧ e ∈ es ∧ getitem e "resource" = Ok x.

(** From [s] to [s'] no key left a collection, and the profiles and the
    log were only appended to. *)
Definition only_grows (s s' : state) : Prop :=
  dom (valuesets s) ⊆ dom (valuesets s')
  ∧ dom (codesystems s) ⊆ dom (codesystems s')
  ∧ profiles s `prefix_of` profiles s'
  ∧ log s `prefix_of` log s'.

End Flatten.

(** ** Records the loop can process

    The loop of [add_igs_to_spec] has no exception handler: it ends normally
    only on records on which no line of its body raises. *)

Module WellFormed.
Import Ig Flatten.

Section Spec.

Context {fhirspec : Fhirspec}.



End Spec.

End WellFormed.

(** ** What [load] leaves behind

    The observations the properties of [load] and [expand] are stated
    with: the artifacts a cache lacks, the URLs fetched and the directories
    deleted among some events, and the path a file-system call works on. *)

Module Cache.
Import Loader.

(** The artifact [need] of the manifest is not in the cache. *)
Definition missing (cache : path) (σ : fs)
    (need : string * (string * option string)) : bool :=
  negb (path_exists σ (joinpath cache (parts need.1))).

(** The URL [download] asks for the artifact [need] (line 81). *)
Definition url_of (base_url : string)
    (need : string * (string * option string)) : string :=
  base_url +:+ "/" +:+ need.2.1.

Definition fetched (es : list event) : list string :=
  omap (λ e, match e with Fetched url => Some url | _ => None end) es.

Definition deleted (es : list event) : list path :=
  omap (λ e, match e with Deleted p => Some p | _ => None end) es.

(** From [w] to [w'] events were appended only: fetches among [urls], in
    their order, and deletions among [dels]. *)
Definition logs (urls : list string) (dels : list path) (w w' : world) : Prop :=
  ∃ es, events w' = events w ++ es
        ∧ fetched es `sublist_of` urls ∧ deleted es `sublist_of` dels.

Definition op_path (op : fs_op) : path :=
  match op with
  | MkdirP p => p
  | WriteFile p _ => p
  end.

End Cache.

(** * Statements about [ig.py] *)

Module IgProps.
Import Ig.

(** Unfolds the monad so that a computation applied to a state reduces. *)
Ltac run :=
  repeat (progress (unfold mbind, M_bind, mret, M_ret, lift, raise, assert,
                    modify, get, warning, info, put, set_queue, append_profile,
                    store_valueset, store_codesystem, keep_codesystem,
                    skip_codesystem in *; simpl in * )).

Section General.

Context {fhirspec : Fhirspec}.

Lemma json_size_pos (j : json) : 1 ≤ json_size j.
Proof. destruct j; simpl; lia. Qed.

Lemma obj_lookup_size (k : string) (kvs : list (string * json)) (v : json) :
  obj_lookup k kvs = Some v →
  json_size v ≤ list_sum (map (λ kv, json_size (snd kv)) kvs).
Proof.
  induction kvs as [|[k' v'] kvs IH]; simpl; [done|].
  case_bool_decide; intros Hv.
  - injection Hv as ->. lia.
  - specialize (IH Hv). lia.
Qed.

Lemma getitem_size (d : json) (k : string) (v : json) :
  getitem d k = Ok v → json_size v < json_size d.
Proof.
  destruct d; simpl; try done.
  destruct (obj_lookup k members) eqn:E; [|done].
  intros [= ->]. apply obj_lookup_size in E. lia.
Qed.

Lemma getitem_contains (d : json) (k : string) (v : json) :
  getitem d k = Ok v → contains k d = Ok true.
Proof.
  destruct d; simpl; try done.
  destruct (obj_lookup k members) eqn:E; [|done].
  done.
Qed.


(** The loop over the entries of a Bundle only appends to the queue, and
    what it appends is smaller than the entries. *)
Lemma enqueue_entries (es : list json) (s : state) (r : result unit) (s' : state) :
  for_each (λ e, x ← lift (getitem e "resource"); put x) es s = (r, s') →
  ∃ rs, s' = with_queue (resource_queue s ++ rs) s ∧
        (weight rs ≤ weight es) ∧
        (∀ x, x ∈ rs → ∃ e, e ∈ es ∧ getitem e "resource" = Ok x).
Proof.
  revert s. induction es as [|e es IH]; intros s; simpl.
  - run. intros [= <- <-]. exists []. rewrite app_nil_r.
    split; [by destruct s|]. split; [done|]. intros x Hx. by apply elem_of_nil in Hx.
  - run. destruct (getitem e "resource") as [x|err] eqn:E.
    + intros H. apply IH in H as (rs & -> & Hw & Hin). exists (x :: rs). simpl.
      split; [unfold with_queue; simpl; by rewrite <- app_assoc|].
      split.
      * apply getitem_size in E. unfold weight in *. simpl. lia.
      * intros y [->|Hy]%elem_of_cons.
        -- exists e. split; [left|done].
        -- destruct (Hin y Hy) as (e' & He' & Hg). exists e'. split; [by right|done].
    + intros [= <- <-]. exists []. rewrite app_nil_r.
      split; [by destruct s|]. split; [unfold weight; simpl; lia|].
      intros x Hx. by apply elem_of_nil in Hx.
Qed.

Lemma chars_no_resource (u : string) (e : json) (x : json) :
  e ∈ chars u → getitem e "resource" = Ok x → False.
Proof.
  induction u as [|c u IH]; simpl.
  - intros H. by apply elem_of_nil in H.
  - intros [->|H]%elem_of_cons; [done|auto].
Qed.

Lemma keys_no_resource (kvs : list (string * json)) (e : json) (x : json) :
  e ∈ map (λ kv, JStr (fst kv)) kvs → getitem e "resource" = Ok x → False.
Proof.
  intros (kv & -> & _)%list_elem_of_fmap. done.
Qed.

Lemma with_queue_same (s : state) :
  with_queue (resource_queue s ++ []) s = s.
Proof. destruct s. unfold with_queue. simpl. by rewrite app_nil_r. Qed.

(** The Bundle branch only appends to the queue, and appends less than it
    took from it. *)
Lemma expand_bundle_queue (parsed : json) (s : state) (r : result unit) (s' : state) :
  expand_bundle parsed s = (r, s') →
  ∃ rs, s' = with_queue (resource_queue s ++ rs) s ∧ weight rs < json_size parsed.
Proof.
  pose proof (json_size_pos parsed) as Hpos.
  unfold expand_bundle. run.
  destruct (contains "entry" parsed) as [[|]|err].
  - destruct (getitem parsed "entry") as [entry|err] eqn:E.
    + apply getitem_size in E.
      destruct (iter entry) as [es|err] eqn:I.
      * intros H. apply enqueue_entries in H as (rs & -> & Hw & Hin).
        exists rs. split; [done|].
        destruct entry; simpl in I; simplify_eq.
        -- destruct rs as [|x rs]; [unfold weight; simpl; lia|].
           destruct (Hin x) as (e & He & Hg); [left|].
           by destruct (chars_no_resource _ _ _ He Hg).
        -- simpl in E. unfold weight in *. lia.
        -- destruct rs as [|x rs]; [unfold weight; simpl; lia|].
           destruct (Hin x) as (e & He & Hg); [left|].
           by destruct (keys_no_resource _ _ _ He Hg).
      * intros [= <- <-]. exists []. rewrite with_queue_same. split; [done|]. unfold weight; simpl; lia.
    + intros [= <- <-]. exists []. rewrite with_queue_same. split; [done|]. unfold weight; simpl; lia.
  - intros [= <- <-]. exists []. rewrite with_queue_same. split; [done|]. unfold weight; simpl; lia.
  - intros [= <- <-]. exists []. rewrite with_queue_same. split; [done|]. unfold weight; simpl; lia.
Qed.

(** The other branches leave the queue alone. *)
Lemma classify_queue (rt parsed : json) (s : state) (r : result unit) (s' : state) :
  classify rt parsed s = (r, s') → resource_queue s' = resource_queue s.
Proof.
  unfold classify. run. repeat case_match; intros; simplify_eq; done.
Qed.




Lemma with_queue_twice (q q' : list json) (s : state) :
  with_queue q (with_queue q' s) = with_queue q s.
Proof. done. Qed.

Lemma enqueue_resources (es rs : list json) (s : state) :
  Forall2 (λ e r, getitem e "resource" = Ok r) es rs →
  for_each (λ e, x ← lift (getitem e "resource"); put x) es s
  = (Ok (), with_queue (resource_queue s ++ rs) s).
Proof.
  intros H. revert s. induction H as [|e r es rs He _ IH]; intros s; simpl.
  - run. by rewrite with_queue_same.
  - run. rewrite He. rewrite IH. simpl. rewrite with_queue_twice.
    by rewrite <- app_assoc.
Qed.

(** An iteration on a Bundle moves its resources to the end of the queue
    and does nothing else. *)
Lemma iteration_bundle (b : json) (rs rest : list json) (s : state) :
  is_bundle_of b rs →
  iteration b rest s = (Ok (), with_queue (rest ++ rs) s).
Proof.
  intros (Hrt & es & Hentry & Hes).
  unfold iteration, dispatch, expand_bundle. run.
  rewrite Hrt. simpl. rewrite (getitem_contains _ _ _ Hentry), Hentry. simpl.
  rewrite (enqueue_resources _ _ _ Hes). done.
Qed.

(** An iteration on any other record classifies it. *)
Lemma iteration_leaf (leaf rt : json) (rest : list json) (s : state) :
  getitem leaf "resourceType" = Ok rt → eq_str rt "Bundle" = false →
  iteration leaf rest s = classify rt leaf (with_queue rest s).
Proof.
  intros Hrt Hne. unfold iteration, dispatch. run. by rewrite Hrt, Hne.
Qed.



Lemma for_each_app {A : Type} (f : A → M state unit) (l1 l2 : list A) (s : state) :
  for_each f (l1 ++ l2) s =
  match for_each f l1 s with
  | (Ok _, s1) => for_each f l2 s1
  | (Raise e, s1) => (Raise e, s1)
  end.
Proof.
  revert s. induction l1 as [|x l1 IH]; intros s; simpl; [done|].
  run. destruct (f x s) as [[u|err] s1]; [apply IH|done].
Qed.

(** A file whose document is a dict without ["resourceType"] is warned
    about and is not put on the queue. *)
Lemma read_file_without_resourceType (name : string) (kvs : list (string * json))
    (s : state) :
  obj_lookup "resourceType" kvs = None →
  read_file (IgFile name (Parsed (JObj kvs))) s
  = (Ok (), with_log (log s ++ [Warning (MissingResourceType name)]) s).
Proof. intros H. unfold read_file, json_load. run. by rewrite H. Qed.

(** C1.  Line 56 tests that the keys are there, not what the listing holds.
    A CodeSystem record (with a hashable ["url"]) that has a ["content"]
    key and a ["concept"] key, be the listing empty, is not skipped: it is
    handed to the constructor of [fhirspec].  When the constructor raises,
    the exception ends the loop with nothing stored and nothing logged;
    when it returns, what it returns is stored under the url, and nothing is
    logged either.  The warning is for the records that lack one of the
    keys: they leave the collection as it was. *)
Theorem C1_empty_concept_listing_is_not_skipped (kvs : list (string * json))
    (url : json) (k : pykey) (s : state) :
  obj_lookup "resourceType" kvs = Some (JStr "CodeSystem") →
  obj_lookup "url" kvs = Some url →
  hashable url = Ok k →
  dispatch (JObj kvs) s =
  if bool_decide (is_Some (obj_lookup "content" kvs))
     && bool_decide (is_Some (obj_lookup "concept" kvs))
  then match FHIRCodeSystem (JObj kvs) with
       | Ok codesystem =>
           (Ok (), State (profiles s) (resource_queue s) (valuesets s)
                         (<[k := codesystem]> (codesystems s)) (log s))
       | Raise e => (Raise e, s)
       end
  else (Ok (), with_log (log s ++ [Warning (CodeSystemNoConcepts url)]) s).
Proof.
  intros Hrt Hurl Hk. unfold dispatch, classify. run.
  rewrite Hrt. simpl. rewrite Hurl. simpl.
  destruct (bool_decide (is_Some (obj_lookup "content" kvs))); simpl; [|done].
  destruct (bool_decide (is_Some (obj_lookup "concept" kvs))); simpl; [|done].
  destruct (FHIRCodeSystem (JObj kvs)) as [codesystem|e]; simpl; [|by destruct s].
  by rewrite Hk.
Qed.

(** C3, amended.  A file that fails to parse is fatal: once the files
    before it are read, [add_igs_to_spec] ends with [JSONDecodeError] in
    the state those files left; no later file is read and the loop that
    classifies the queued records never starts. *)
Theorem C3_malformed_file_is_fatal (fuel : nat) (before after : list ig_file)
    (name : string) (s s1 : state) :
  for_each read_file before (State [] [] (valuesets s) (codesystems s) (log s))
    = (Ok (), s1) →
  add_igs_to_spec fuel (before ++ IgFile name Malformed :: after) s
  = Some (Raise JSONDecodeError, s1).
Proof.
  intros Hbefore. unfold add_igs_to_spec.
  rewrite for_each_app, Hbefore. reflexivity.
Qed.

Lemma while_loop_bundle (fuel : nat) (b : json) (rs rest : list json) (s : state) :
  is_bundle_of b rs → resource_queue s = b :: rest →
  while_loop (S fuel) s = while_loop fuel (with_queue (rest ++ rs) s).
Proof. intros Hb Hq. simpl. by rewrite Hq, (iteration_bundle _ _ _ _ Hb). Qed.

Lemma processed_bundle (fuel : nat) (b : json) (rs rest : list json) (s : state) :
  is_bundle_of b rs → resource_queue s = b :: rest →
  processed (S fuel) s = b :: processed fuel (with_queue (rest ++ rs) s).
Proof. intros Hb Hq. simpl. by rewrite Hq, (iteration_bundle _ _ _ _ Hb). Qed.

Lemma is_bundle_not_leaf (b : json) (rs : list json) : is_bundle_of b rs → is_leaf b = false.
Proof. intros [Hrt _]. unfold is_leaf. by rewrite Hrt. Qed.

(** C7.  A Bundle holding a Bundle holding a Bundle holding a record that
    is not a Bundle: the loop takes the three Bundles and the record from
    the queue, each once; the record is the only one it yields, and what the
    loop does to the state is what one classification of that record does. *)
Theorem C7_three_nested_bundles_yield_the_leaf_once (leaf rt b1 b2 b3 : json)
    (s : state) (fuel : nat) :
  getitem leaf "resourceType" = Ok rt → eq_str rt "Bundle" = false →
  is_bundle_of b1 [leaf] → is_bundle_of b2 [b1] → is_bundle_of b3 [b2] →
  4 ≤ fuel →
  while_loop fuel (with_queue [b3] s) = Some (classify rt leaf (with_queue [] s))
  ∧ processed fuel (with_queue [b3] s) = [b3; b2; b1; leaf]
  ∧ yielded fuel (with_queue [b3] s) = [leaf].
Proof.
  intros Hrt Hne H1 H2 H3 Hfuel.
  destruct fuel as [|[|[|[|fuel]]]]; try lia.
  assert (processed (S (S (S (S fuel)))) (with_queue [b3] s) = [b3; b2; b1; leaf])
    as Hproc.
  { rewrite (processed_bundle _ b3 [b2] []), with_queue_twice by done.
    rewrite (processed_bundle _ b2 [b1] []), with_queue_twice by done.
    rewrite (processed_bundle _ b1 [leaf] []), with_queue_twice by done.
    simpl. rewrite (iteration_leaf _ _ _ _ Hrt Hne), with_queue_twice.
    destruct (classify rt leaf (with_queue [] s)) as [[u|err] s1] eqn:Hc; [|done].
    apply classify_queue in Hc. simpl in Hc.
    destruct fuel; simpl; by rewrite Hc. }
  split; [|split; [done|]].
  - rewrite (while_loop_bundle _ b3 [b2] []), with_queue_twice by done.
    rewrite (while_loop_bundle _ b2 [b1] []), with_queue_twice by done.
    rewrite (while_loop_bundle _ b1 [leaf] []), with_queue_twice by done.
    simpl. rewrite (iteration_leaf _ _ _ _ Hrt Hne), with_queue_twice.
    destruct (classify rt leaf (with_queue [] s)) as [[[]|err] s1] eqn:Hc; [|done].
    apply classify_queue in Hc. simpl in Hc.
    destruct fuel; simpl; by rewrite Hc.
  - unfold yielded. rewrite Hproc. simpl.
    rewrite (is_bundle_not_leaf _ _ H3), (is_bundle_not_leaf _ _ H2),
      (is_bundle_not_leaf _ _ H1).
    unfold is_leaf. by rewrite Hrt, Hne.
Qed.

End General.

(** ** Examples

    The statements above hold whatever [fhirspec] does with a code system.
    The examples are run with the constructor that accepts every record. *)

Section Examples.

#[local] Existing Instance accepting.

Lemma C1_empty_concept_listing_is_not_skipped_witness :
  let record := JObj [ ("resourceType", JStr "CodeSystem");
                       ("url", JStr "http://example.org/cs"); ("name", JStr "Example");
                       ("content", JStr "complete"); ("concept", JArr []) ] in
  dispatch record (State [] [] ∅ ∅ [])
  = (Ok (), State [] [] ∅ {[ KStr "http://example.org/cs" := record ]} []).
Proof.
  intros record.
  exact (C1_empty_concept_listing_is_not_skipped
           [ ("resourceType", JStr "CodeSystem");
             ("url", JStr "http://example.org/cs"); ("name", JStr "Example");
             ("content", JStr "complete"); ("concept", JArr []) ]
           (JStr "http://example.org/cs") (KStr "http://example.org/cs")
           (State [] [] ∅ ∅ []) eq_refl eq_refl eq_refl).
Defined.

(** C2: the record nested in a Bundle is put on the queue without a look at
    its ["resourceType"], and the iteration that takes it raises
    [KeyError]: the ingestion ends there. *)
Lemma C2_nested_record_without_resourceType_is_fatal :
  let nested := JObj [("id", JStr "x")] in
  let file := IgFile "bundle.json" (Parsed (bundle [nested])) in
  iteration (bundle [nested]) [] (State [] [] ∅ ∅ [])
    = (Ok (), State [] [nested] ∅ ∅ [])
  ∧ iteration nested [] (State [] [nested] ∅ ∅ [])
    = (Raise KeyError, State [] [] ∅ ∅ [])
  ∧ add_igs_to_spec 2 [file] (State [] [] ∅ ∅ [])
    = Some (Raise KeyError, State [] [] ∅ ∅ []).
Proof. repeat split; vm_compute; reflexivity. Qed.

(** C3, as the specification states it, fails.  A file that does not parse
    ends the ingestion with [json.load]'s exception; the valid ValueSet in
    the file after it is never read, let alone stored. *)
Lemma C3_malformed_file_aborts :
  let valid := JObj [("resourceType", JStr "ValueSet"); ("url", JStr "http://x/vs/1")] in
  add_igs_to_spec 8 [IgFile "bad.json" Malformed; IgFile "vs.json" (Parsed valid)]
                  (State [] [] ∅ ∅ [])
  = Some (Raise JSONDecodeError, State [] [] ∅ ∅ []).
Proof. reflexivity. Qed.

Lemma C3_malformed_file_is_fatal_witness :
  add_igs_to_spec 5
    ([IgFile "cs.json" (Parsed (JObj [("resourceType", JStr "CodeSystem")]))]
     ++ IgFile "bad.json" Malformed :: [])
    (State [] [] ∅ ∅ [])
  = Some (Raise JSONDecodeError,
          State [] [JObj [("resourceType", JStr "CodeSystem")]] ∅ ∅ []).
Proof.
  exact (C3_malformed_file_is_fatal 5
           [IgFile "cs.json" (Parsed (JObj [("resourceType", JStr "CodeSystem")]))]
           [] "bad.json" (State [] [] ∅ ∅ []) _ eq_refl).
Defined.

Lemma C7_three_nested_bundles_yield_the_leaf_once_witness :
  let leaf := JObj [("resourceType", JStr "StructureDefinition"); ("url", JStr "http://x/sd/1")] in
  let s := State [] [] ∅ ∅ [] in
  while_loop 4 (with_queue [bundle [bundle [bundle [leaf]]]] s)
    = Some (Ok (), State [leaf] [] ∅ ∅ [])
  ∧ processed 4 (with_queue [bundle [bundle [bundle [leaf]]]] s)
    = [bundle [bundle [bundle [leaf]]]; bundle [bundle [leaf]]; bundle [leaf]; leaf]
  ∧ yielded 4 (with_queue [bundle [bundle [bundle [leaf]]]] s) = [leaf].
Proof.
  intros leaf s.
  assert (∀ r, is_bundle_of (bundle [r]) [r]) as Hb.
  { intros r. split; [reflexivity|]. eexists. split; [reflexivity|].
    constructor; [reflexivity|constructor]. }
  exact (C7_three_nested_bundles_yield_the_leaf_once
           leaf (JStr "StructureDefinition") (bundle [leaf]) (bundle [bundle [leaf]])
           (bundle [bundle [bundle [leaf]]]) s 4 eq_refl eq_refl
           (Hb _) (Hb _) (Hb _) (le_n 4)).
Defined.

End Examples.

End IgProps.

(** * Statements about the file system *)

Module FsProps.

Lemma grows_refl (σ : fs) : grows σ σ.
Proof. intros key. destruct (σ !! key) as [[|c]|]; eauto. Qed.

Lemma grows_trans (σ1 σ2 σ3 : fs) : grows σ1 σ2 → grows σ2 σ3 → grows σ1 σ3.
Proof.
  intros H12 H23 key. specialize (H12 key). specialize (H23 key).
  destruct (σ1 !! key) as [[|c]|]; [| |done].
  - by rewrite H12 in H23.
  - destruct H12 as [c' H12]. by rewrite H12 in H23.
Qed.

Lemma subseteq_grows (σ σ' : fs) : σ ⊆ σ' → grows σ σ'.
Proof.
  intros Hsub key. destruct (σ !! key) as [[|c]|] eqn:E; [| |done].
  - by apply (lookup_weaken _ _ _ _ E Hsub).
  - exists c. by apply (lookup_weaken _ _ _ _ E Hsub).
Qed.

Lemma grows_write (σ : fs) (key : path) (c : content) :
  σ !! key ≠ Some Dir → grows σ (<[key := File c]> σ).
Proof.
  intros Hkey k. destruct (decide (key = k)) as [<-|Hne].
  - rewrite lookup_insert_eq. destruct (σ !! key) as [[|c0]|]; [done|eauto|done].
  - rewrite lookup_insert_ne by done. destruct (σ !! k) as [[|c0]|]; eauto.
Qed.

(** A path that resolves keeps resolving when the file system grows. *)
Lemma walk_grows (σ σ' : fs) (cur : path) (comps : list string) :
  grows σ σ' →
  match walk σ cur comps with
  | IsDir key => walk σ' cur comps = IsDir key
  | IsFile key _ => ∃ c', walk σ' cur comps = IsFile key c'
  | _ => True
  end.
Proof.
  intros Hg. revert cur. induction comps as [|c rest IH]; intros cur; cbn [walk]; [done|].
  case_bool_decide; [apply IH|].
  pose proof (Hg (cur ++ [c])) as Hkey.
  destruct (σ !! (cur ++ [c])) as [[|d]|]; simpl in Hkey.
  - rewrite Hkey. apply IH.
  - destruct Hkey as [c' ->]. destruct rest; [by exists c'|done].
  - by destruct rest.
Qed.

Lemma resolve_grows (σ σ' : fs) (p : path) :
  grows σ σ' →
  match resolve σ p with
  | IsDir key => resolve σ' p = IsDir key
  | IsFile key _ => ∃ c', resolve σ' p = IsFile key c'
  | _ => True
  end.
Proof.
  intros Hg. unfold resolve. destruct p as [|r comps]; [done|].
  destruct (is_anchor r); by apply walk_grows.
Qed.

Lemma path_is_dir_grows (σ σ' : fs) (p : path) :
  grows σ σ' → path_is_dir σ p = true → path_is_dir σ' p = true.
Proof.
  intros Hg. unfold path_is_dir. pose proof (resolve_grows σ σ' p Hg) as H.
  destruct (resolve σ p); try done. by rewrite H.
Qed.

Lemma path_is_file_grows (σ σ' : fs) (p : path) :
  grows σ σ' → path_is_file σ p = true → path_is_file σ' p = true.
Proof.
  intros Hg. unfold path_is_file. pose proof (resolve_grows σ σ' p Hg) as H.
  destruct (resolve σ p); try done. destruct H as [c' ->]. done.
Qed.

(** With more entries and the same contents, files resolve to the same
    contents. *)
Lemma walk_subseteq (σ σ' : fs) (cur : path) (comps : list string) (key : path)
    (c : content) :
  σ ⊆ σ' → walk σ cur comps = IsFile key c → walk σ' cur comps = IsFile key c.
Proof.
  intros Hsub. revert cur. induction comps as [|x rest IH]; intros cur; cbn [walk]; [done|].
  case_bool_decide; [apply IH|].
  destruct (σ !! (cur ++ [x])) as [[|d]|] eqn:E.
  - rewrite (lookup_weaken _ _ _ _ E Hsub). apply IH.
  - rewrite (lookup_weaken _ _ _ _ E Hsub). by destruct rest.
  - by destruct rest.
Qed.

Lemma resolve_subseteq (σ σ' : fs) (p key : path) (c : content) :
  σ ⊆ σ' → resolve σ p = IsFile key c → resolve σ' p = IsFile key c.
Proof.
  intros Hsub. unfold resolve. destruct p as [|r comps]; [done|].
  destruct (is_anchor r); by apply walk_subseteq.
Qed.

Lemma walk_missing (σ : fs) (cur : path) (comps : list string) (key : path) :
  walk σ cur comps = Missing key → σ !! key = None.
Proof.
  revert cur. induction comps as [|x rest IH]; intros cur; cbn [walk]; [done|].
  case_bool_decide; [apply IH|].
  destruct (σ !! (cur ++ [x])) as [[|d]|] eqn:E.
  - apply IH.
  - by destruct rest.
  - destruct rest; [|done]. by intros [= <-].
Qed.

Lemma walk_file (σ : fs) (cur : path) (comps : list string) (key : path) (c : content) :
  walk σ cur comps = IsFile key c → σ !! key = Some (File c).
Proof.
  revert cur. induction comps as [|x rest IH]; intros cur; cbn [walk]; [done|].
  case_bool_decide; [apply IH|].
  destruct (σ !! (cur ++ [x])) as [[|d]|] eqn:E.
  - apply IH.
  - destruct rest; [|done]. by intros [= <- <-].
  - by destruct rest.
Qed.

(** Filling the free name a path ends at makes the path resolve to what
    was put there. *)
Lemma walk_insert_missing (σ : fs) (cur : path) (comps : list string) (key : path)
    (n : node) :
  walk σ cur comps = Missing key →
  walk (<[key := n]> σ) cur comps
  = match n with Dir => IsDir key | File c => IsFile key c end.
Proof.
  revert cur. induction comps as [|x rest IH]; intros cur; cbn [walk]; [done|].
  case_bool_decide; [apply IH|].
  destruct (σ !! (cur ++ [x])) as [[|d]|] eqn:E.
  - intros Hw. pose proof (walk_missing _ _ _ _ Hw) as Hnone.
    rewrite lookup_insert_ne by congruence. rewrite E. by apply IH.
  - by destruct rest.
  - destruct rest; [|done]. intros [= <-]. rewrite lookup_insert_eq.
    by destruct n.
Qed.

Lemma walk_insert_file (σ : fs) (cur : path) (comps : list string) (key : path)
    (c0 c : content) :
  walk σ cur comps = IsFile key c0 →
  walk (<[key := File c]> σ) cur comps = IsFile key c.
Proof.
  revert cur. induction comps as [|x rest IH]; intros cur; cbn [walk]; [done|].
  case_bool_decide; [apply IH|].
  destruct (σ !! (cur ++ [x])) as [[|d]|] eqn:E.
  - intros Hw. pose proof (walk_file _ _ _ _ _ Hw) as Hsome.
    rewrite lookup_insert_ne by congruence. rewrite E. by apply IH.
  - destruct rest; [|done]. intros [= <- <-]. by rewrite lookup_insert_eq.
  - by destruct rest.
Qed.

Lemma resolve_missing (σ : fs) (p key : path) :
  resolve σ p = Missing key → σ !! key = None.
Proof.
  unfold resolve. destruct p as [|r comps]; [done|].
  destruct (is_anchor r); apply walk_missing.
Qed.

Lemma resolve_file (σ : fs) (p key : path) (c : content) :
  resolve σ p = IsFile key c → σ !! key = Some (File c).
Proof.
  unfold resolve. destruct p as [|r comps]; [done|].
  destruct (is_anchor r); apply walk_file.
Qed.

Lemma resolve_insert_missing (σ : fs) (p key : path) (n : node) :
  resolve σ p = Missing key →
  resolve (<[key := n]> σ) p
  = match n with Dir => IsDir key | File c => IsFile key c end.
Proof.
  unfold resolve. destruct p as [|r comps]; [done|].
  destruct (is_anchor r); apply walk_insert_missing.
Qed.

Lemma resolve_insert_file (σ : fs) (p key : path) (c0 c : content) :
  resolve σ p = IsFile key c0 →
  resolve (<[key := File c]> σ) p = IsFile key c.
Proof.
  unfold resolve. destruct p as [|r comps]; [done|].
  destruct (is_anchor r); apply walk_insert_file.
Qed.

(** [os.mkdir] adds one directory and nothing else. *)
Lemma os_mkdir_ok (p : path) (σ σ' : fs) :
  os_mkdir p σ = Ok σ' → σ ⊆ σ' ∧ path_is_dir σ' p = true.
Proof.
  unfold os_mkdir, path_is_dir. destruct (resolve σ p) as [| |key| |] eqn:E; try done.
  intros [= <-]. split.
  - apply insert_subseteq. by apply (resolve_missing σ p).
  - by rewrite (resolve_insert_missing _ _ _ Dir E).
Qed.

(** [Path.mkdir] only adds directories, and the path is a directory
    once it returns. *)
Lemma mkdir_rec_ok (fuel : nat) (parents exist_ok : bool) (p : path) (σ σ' : fs) :
  mkdir_rec fuel parents exist_ok p σ = Ok σ' →
  σ ⊆ σ' ∧ path_is_dir σ' p = true.
Proof.
  revert parents exist_ok p σ σ'.
  induction fuel as [|fuel IH]; intros parents exist_ok p σ σ'; simpl.
  - destruct (os_mkdir p σ) as [σ1|e] eqn:E.
    + intros [= <-]. by apply os_mkdir_ok.
    + destruct e as [| | | | | | |[]|]; try (by destruct (negb parents || _));
        destruct exist_ok; simpl; try done;
        destruct (path_is_dir σ p) eqn:Hd; try done; by intros [= <-].
  - destruct (os_mkdir p σ) as [σ1|e] eqn:E.
    + intros [= <-]. by apply os_mkdir_ok.
    + destruct e as [| | | | | | |[]|];
        try (destruct exist_ok; simpl; try done;
             destruct (path_is_dir σ p) eqn:Hd; try done; by intros [= <-]).
      destruct (negb parents || _); [done|].
      destruct (mkdir_rec fuel true true (parent p) σ) as [σ1|e] eqn:E1; [|done].
      intros H2. apply IH in E1 as [Hsub1 _]. apply IH in H2 as [Hsub2 Hdir].
      split; [by etrans|done].
Qed.

Lemma mkdir_ok (parents exist_ok : bool) (p : path) (σ σ' : fs) :
  mkdir parents exist_ok p σ = Ok σ' → σ ⊆ σ' ∧ path_is_dir σ' p = true.
Proof. apply mkdir_rec_ok. Qed.

(** [open(p, 'wb').write(c)] leaves a file at [p] and every other
    directory and file in place. *)
Lemma write_file_ok (p : path) (c : content) (σ σ' : fs) :
  write_file p c σ = Ok σ' → grows σ σ' ∧ path_is_file σ' p = true.
Proof.
  unfold write_file, path_is_file.
  destruct (resolve σ p) as [|key c0|key| |] eqn:E; try done; intros [= <-].
  - split.
    + apply grows_write. by rewrite (resolve_file _ _ _ _ E).
    + by rewrite (resolve_insert_file _ _ _ _ c E).
  - split.
    + apply grows_write. by rewrite (resolve_missing _ _ _ E).
    + by rewrite (resolve_insert_missing _ _ _ (File c) E).
Qed.

(** [infolist] reads the same members after directories were added. *)
Lemma infolist_subseteq (σ σ' : fs) (p : path) (members : list ZipInfo) :
  σ ⊆ σ' → infolist p σ = Ok members → infolist p σ' = Ok members.
Proof.
  intros Hsub. unfold infolist.
  destruct (resolve σ p) as [|key c| | |] eqn:E; try done.
  destruct c as [b|ms]; [done|]. intros [= <-].
  by rewrite (resolve_subseteq _ _ _ _ _ Hsub E).
Qed.

End FsProps.

(** * Statements about [fhirloader.py] *)

Module LoaderProps.
Import Loader.

(** ** Strings *)

Lemma append_cons (c : ascii) (s t : string) : String c s +:+ t = String c (s +:+ t).
Proof. reflexivity. Qed.

Lemma append_nil (t : string) : "" +:+ t = t.
Proof. reflexivity. Qed.

Lemma startswith_app (p rest : string) : startswith (p +:+ rest) p = true.
Proof.
  induction p as [|c p IH]; [done|].
  rewrite append_cons. simpl. by rewrite bool_decide_eq_true_2.
Qed.

Lemma startswith_inv (s p : string) :
  startswith s p = true → s = p +:+ drop_str (String.length p) s.
Proof.
  revert s. induction p as [|c p IH]; intros s; simpl; [done|].
  destruct s as [|d s]; simpl; [done|].
  case_bool_decide as Hc; simpl; [|done]. subst d.
  intros H. rewrite append_cons. f_equal. by apply IH.
Qed.

Lemma drop_str_app (p rest : string) : drop_str (String.length p) (p +:+ rest) = rest.
Proof. induction p as [|c p IH]; [done|]. by rewrite append_cons. Qed.

Lemma startswith_longer (s : string) (c : ascii) :
  startswith s (s +:+ String c EmptyString) = false.
Proof.
  induction s as [|d s IH]; [done|].
  rewrite append_cons. simpl. by rewrite IH, andb_false_r.
Qed.

Lemma split_slash_plain (s : string) : has_slash s = false → split_slash s = [s].
Proof.
  induction s as [|c s IH]; simpl; [done|].
  case_bool_decide; simpl; [done|]. intros Hs. by rewrite IH.
Qed.

Lemma rstrip_slash_plain (s : string) : has_slash s = false → rstrip_slash s = s.
Proof.
  unfold rstrip_slash. induction s as [|c s IH]; simpl; [done|].
  case_bool_decide as Hc; simpl; [done|]. intros Hs. rewrite IH by done.
  by destruct s.
Qed.

Lemma parts_plain (s : string) :
  has_slash s = false → s ≠ "" → s ≠ "." → parts s = [s].
Proof.
  intros Hs Hne Hdot. unfold parts, splitroot.
  assert (startswith s "/" = false) as ->.
  { destruct s as [|c s]; [done|]. cbn [startswith has_slash] in *.
    apply orb_false_iff in Hs as [Hc _]. apply bool_decide_eq_false in Hc.
    rewrite bool_decide_eq_false_2; [done|]. intros <-. by apply Hc. }
  simpl. rewrite split_slash_plain by done.
  rewrite filter_cons_True by done. done.
Qed.

(** ** The cache *)

Ltac run :=
  repeat (progress (unfold mbind, M_bind, mret, M_ret, lift, raise, assert,
                    modify, get, emit, on_files in *; simpl in * )).

Section Cache.

Variable base_url : string.
Variable cache : path.
Variable fetch : string → path → fs → result path * fs.

(** An artifact that is in the cache is not fetched and sets the flag. *)
Lemma check_files_cached (needs : list (string * (string * option string)))
    (force_cache uses_cache : bool) (w : world) :
  (∀ need, need ∈ needs →
           path_exists (files w) (joinpath cache (parts need.1)) = true) →
  check_files base_url cache fetch force_cache uses_cache needs w
  = (Ok (match needs with [] => uses_cache | _ :: _ => true end), w).
Proof.
  revert uses_cache. induction needs as [|[local remote] needs IH];
    intros uses_cache Hall; simpl; [done|].
  assert (path_exists (files w) (joinpath cache (parts local)) = true) as Hlocal
    by (apply (Hall (local, remote)); left).
  unfold check_file. run. rewrite Hlocal. simpl.
  rewrite IH by (intros need Hneed; apply Hall; by right).
  by destruct needs.
Qed.

End Cache.

(** C5.  With the default flags and a cache directory that holds every
    artifact of the manifest, [load] returns the cache directory, leaves
    the files as they are, and records no event (no fetch, no deletion) but
    the "cache was used" notice: the notice is given as soon as one
    artifact is taken from the cache, that is, for every manifest that
    names an artifact, as the manifest of [FHIRLoader] does. *)
Theorem C5_populated_cache_is_reused (base_url : string) (cache : path)
    (needs : list (string * (string * option string)))
    (fetch : string → path → fs → result path * fs) (w : world) :
  path_exists (files w) cache = true →
  (∀ need, need ∈ needs →
           path_exists (files w) (joinpath cache (parts need.1)) = true) →
  load base_url cache needs fetch false false w
  = (Ok cache,
     World (files w)
           (events w ++ match needs with [] => [] | _ :: _ => [Logged UsingCache] end)).
Proof.
  intros Hcache Hall. unfold load. run. rewrite Hcache. simpl. rewrite Hcache. simpl.
  rewrite (check_files_cached base_url cache fetch needs false false w Hall).
  destruct needs; simpl; [|done]. rewrite app_nil_r. by destruct w.
Qed.

Lemma C5_populated_cache_is_reused_witness :
  let σ : fs := {[ ["cache"] := Dir;
                   ["cache"; "version.info"] := File (Bytes "4.0.1");
                   ["cache"; "examples-json.zip"] := File (Zip []);
                   ["cache"; "definitions.json.zip"] := File (Zip []) ]} in
  load "http://hl7.org/fhir" ["cache"] FHIRLoader_needs
       (λ _ _ σ', (Raise DownloadError, σ')) false false (World σ [])
  = (Ok ["cache"], World σ [Logged UsingCache]).
Proof.
  intros σ.
  apply (C5_populated_cache_is_reused "http://hl7.org/fhir" ["cache"] FHIRLoader_needs
           (λ _ _ σ', (Raise DownloadError, σ')) (World σ [])).
  - vm_compute. reflexivity.
  - intros need Hneed. unfold FHIRLoader_needs in Hneed.
    repeat (apply elem_of_cons in Hneed as [->|Hneed]; [vm_compute; reflexivity|]).
    by apply elem_of_nil in Hneed.
Defined.

(** C6.  With both flags set the assertion of line 33 fails first: [load]
    raises and the world is the one it was given, so no directory was
    deleted or made, no file written and nothing fetched. *)
Theorem C6_conflicting_flags_fail_before_any_io (base_url : string) (cache : path)
    (needs : list (string * (string * option string)))
    (fetch : string → path → fs → result path * fs) (w : world) :
  load base_url cache needs fetch true true w = (Raise AssertionError, w).
Proof. reflexivity. Qed.

(** ** The expansion of archives *)

Lemma real_members_idem (all_members : list ZipInfo) :
  real_members (real_members all_members) = real_members all_members.
Proof.
  unfold real_members. induction all_members as [|m ms IH]; simpl; [done|].
  destruct (noise m) eqn:Hm; simpl; [done|]. by rewrite Hm, IH.
Qed.

Lemma real_members_not_noise (all_members : list ZipInfo) :
  Forall (λ m, noise m = false) (real_members all_members).
Proof.
  unfold real_members. induction all_members as [|m ms IH]; simpl; [done|].
  destruct (noise m) eqn:Hm; simpl; [done|]. by constructor.
Qed.

Lemma elem_of_real_members (m : ZipInfo) (all_members : list ZipInfo) :
  m ∈ real_members all_members ↔ m ∈ all_members ∧ noise m = false.
Proof.
  unfold real_members. rewrite !list_elem_of_In, filter_In.
  by rewrite negb_true_iff.
Qed.

(** Members of one name are all noise or all real, so [getinfo] for a real
    name does not see the noise members. *)
Lemma getinfo_real (n : string) (all_members : list ZipInfo) :
  startswith n "__MACOSX/" = false →
  getinfo n (real_members all_members) = getinfo n all_members.
Proof.
  intros Hn. unfold getinfo.
  assert (List.filter (λ m, bool_decide (filename m = n)) (real_members all_members)
          = List.filter (λ m, bool_decide (filename m = n)) all_members) as ->; [|done].
  unfold real_members. induction all_members as [|m ms IH]; simpl; [done|].
  destruct (noise m) eqn:Hm; simpl.
  - case_bool_decide as Hname; [|done]. unfold noise in Hm. congruence.
  - by rewrite IH.
Qed.

Lemma extractall_real (target : path) (all_members : list ZipInfo) (names : list string) :
  Forall (λ n, startswith n "__MACOSX/" = false) names →
  extractall target (real_members all_members) names
  = extractall target all_members names.
Proof.
  induction 1 as [|n names Hn _ IH]; simpl; [done|].
  by rewrite getinfo_real, IH.
Qed.

Lemma real_names_not_noise (all_members : list ZipInfo) :
  Forall (λ n, startswith n "__MACOSX/" = false)
         (map filename (real_members all_members)).
Proof.
  apply Forall_fmap. eapply Forall_impl; [apply real_members_not_noise|].
  by intros m Hm.
Qed.

Lemma last_elem_of {A : Type} (l : list A) (d : A) : List.last l d ∈ d :: l.
Proof.
  induction l as [|x l IH]; [by left|].
  destruct l as [|y l]; [right; by left|].
  change (List.last (x :: y :: l) d) with (List.last (y :: l) d).
  apply elem_of_cons in IH as [->|IH]; [by left|]. right. by right.
Qed.

Lemma getinfo_ok (n : string) (all_members : list ZipInfo) (m : ZipInfo) :
  getinfo n all_members = Ok m → m ∈ all_members ∧ filename m = n.
Proof.
  unfold getinfo.
  destruct (List.filter _ all_members) as [|m0 ms] eqn:Hf; [done|].
  intros [= <-].
  assert (List.last ms m0 ∈ List.filter (λ m, bool_decide (filename m = n)) all_members)
    as Hin by (rewrite Hf; apply last_elem_of).
  apply list_elem_of_In, filter_In in Hin as [Hin Hname].
  split; [by apply list_elem_of_In|]. by apply bool_decide_eq_true in Hname.
Qed.

Lemma getinfo_found (m : ZipInfo) (all_members : list ZipInfo) :
  m ∈ all_members → ∃ m', getinfo (filename m) all_members = Ok m'.
Proof.
  intros Hm. unfold getinfo.
  destruct (List.filter _ all_members) as [|m0 ms] eqn:Hf; [|by eexists].
  assert (m ∈ List.filter (λ m', bool_decide (filename m' = filename m)) all_members)
    as Hin.
  { apply list_elem_of_In, filter_In. split; [by apply list_elem_of_In|].
    by apply bool_decide_eq_true. }
  rewrite Hf in Hin. by apply elem_of_nil in Hin.
Qed.

(** [extractall] on names of the archive extracts the member [getinfo]
    finds for each name, and nothing else. *)
Lemma extractall_names (target : path) (all_members : list ZipInfo) (names : list string) :
  (∀ n, n ∈ names → ∃ m, m ∈ all_members ∧ filename m = n) →
  ∃ ops, extractall target all_members names = Ok ops
    ∧ (∀ n, n ∈ names → ∃ m, getinfo n all_members = Ok m
                             ∧ ∀ op, op ∈ extract_member target m → op ∈ ops)
    ∧ (∀ op, op ∈ ops → ∃ n m, n ∈ names ∧ getinfo n all_members = Ok m
                               ∧ op ∈ extract_member target m).
Proof.
  induction names as [|n names IH]; intros Hnames; simpl.
  - exists []. split; [done|]. split.
    + intros n Hn. by apply elem_of_nil in Hn.
    + intros op Hop. by apply elem_of_nil in Hop.
  - destruct (Hnames n) as (m & Hm & <-); [left|].
    destruct (getinfo_found m all_members Hm) as (m' & Hget). rewrite Hget.
    destruct IH as (ops & -> & Hall & Hfrom).
    { intros n Hn. apply Hnames. by right. }
    eexists. split; [done|]. split.
    + intros n [->|Hn]%elem_of_cons.
      * exists m'. split; [done|]. intros op Hop. apply elem_of_app. by left.
      * destruct (Hall n Hn) as (m'' & Hg & Hops). exists m''. split; [done|].
        intros op Hop. apply elem_of_app. right. by apply Hops.
    + intros op [Hop|Hop]%elem_of_app.
      * exists (filename m), m'. split; [left|done].
      * destruct (Hfrom op Hop) as (n & m'' & Hn & Hg & Hin).
        exists n, m''. split; [by right|done].
Qed.

Lemma real_names (all_members : list ZipInfo) (n : string) :
  n ∈ map filename (real_members all_members) →
  ∃ m, m ∈ all_members ∧ filename m = n.
Proof.
  intros (m & -> & Hm)%list_elem_of_fmap. exists m.
  by apply elem_of_real_members in Hm as [Hm _].
Qed.

Lemma list_to_set_one (x : string) : list_to_set [x] = ({[ x ]} : gset string).
Proof. simpl. by rewrite (right_id_L ∅ (∪)). Qed.

Lemma extraction_single_root (target : path) (all_members : list ZipInfo) (r : string) :
  roots (real_members all_members) = Ok {[ r ]} →
  extraction target all_members
  = Ok (flat_map (strip_root (rstrip_slash r +:+ "/") target) (real_members all_members)).
Proof.
  intros Hroots. unfold extraction. rewrite Hroots.
  rewrite bool_decide_eq_true_2 by apply size_singleton.
  by rewrite elements_singleton.
Qed.

Lemma on_files_ok (f : fs → result fs) (w w' : world) :
  on_files f w = (Ok (), w') → f (files w) = Ok (files w') ∧ events w' = events w.
Proof.
  unfold on_files. destruct (f (files w)) as [σ|e]; [|done]. by intros [= <-].
Qed.

Lemma op_done_grows (σ σ' : fs) (op : fs_op) :
  grows σ σ' → op_done σ op = true → op_done σ' op = true.
Proof.
  intros Hg. destruct op as [p|p bytes]; simpl.
  - by apply FsProps.path_is_dir_grows.
  - by apply FsProps.path_is_file_grows.
Qed.

Lemma run_op_ok (op : fs_op) (w w' : world) :
  run_op op w = (Ok (), w') →
  grows (files w) (files w') ∧ op_done (files w') op = true.
Proof.
  destruct op as [p|p bytes]; simpl; intros [H _]%on_files_ok.
  - apply FsProps.mkdir_ok in H as [Hsub Hdir].
    split; [by apply FsProps.subseteq_grows|done].
  - by apply FsProps.write_file_ok in H.
Qed.

(** When all the calls succeed, what each of them made is there at the
    end. *)
Lemma run_ops_ok (ops : list fs_op) (w w' : world) :
  for_each run_op ops w = (Ok (), w') →
  grows (files w) (files w')
  ∧ ∀ op, op ∈ ops → op_done (files w') op = true.
Proof.
  revert w. induction ops as [|op ops IH]; intros w; simpl.
  - run. intros [= <-]. split; [apply FsProps.grows_refl|].
    intros op Hop. by apply elem_of_nil in Hop.
  - run. destruct (run_op op w) as [[[]|e] w1] eqn:Hop; [|done].
    intros Hrest. apply run_op_ok in Hop as [Hg1 Hdone].
    apply IH in Hrest as [Hg2 Hall]. split; [by eapply FsProps.grows_trans|].
    intros op' [->|Hin]%elem_of_cons; [|by apply Hall].
    by apply (op_done_grows (files w1)).
Qed.

(** A successful [expand] has made the target directory and everything
    [extraction] asks for. *)
Lemma expand_ok (filepath target : path) (all_members : list ZipInfo) (w w' : world) :
  infolist filepath (files w) = Ok all_members →
  expand filepath target w = (Ok (), w') →
  ∃ ops, extraction target all_members = Ok ops
    ∧ path_is_dir (files w') target = true
    ∧ ∀ op, op ∈ ops → op_done (files w') op = true.
Proof.
  intros Hinfo. unfold expand. run.
  destruct (path_exists (files w) filepath && path_is_file (files w) filepath);
    simpl; [|done].
  destruct (mkdir true true target (files w)) as [σ|e] eqn:Hmk; simpl; [|done].
  apply FsProps.mkdir_ok in Hmk as [Hsub Hdir].
  rewrite (FsProps.infolist_subseteq _ _ _ _ Hsub Hinfo). simpl.
  destruct (extraction target all_members) as [ops|e]; simpl; [|done].
  intros [Hg Hall]%run_ops_ok. simpl in Hg. exists ops. split; [done|].
  split; [|done]. by apply (FsProps.path_is_dir_grows σ).
Qed.

(** C9.  What [expand] extracts from an archive is what it extracts from
    the archive without its [__MACOSX/] entries, in the single-root case and
    in the other alike; and every call it makes on the file system is made
    for a member that is not noise. *)
Theorem C9_noise_entries_never_extracted (target : path) (all_members : list ZipInfo) :
  extraction target all_members = extraction target (real_members all_members)
  ∧ Forall (λ m, noise m = false) (real_members all_members)
  ∧ ∀ ops op, extraction target all_members = Ok ops → op ∈ ops →
      ∃ m, m ∈ all_members ∧ noise m = false
           ∧ ((∃ root, op ∈ strip_root root target m) ∨ op ∈ extract_member target m).
Proof.
  split; [|split; [apply real_members_not_noise|]].
  - unfold extraction. rewrite real_members_idem.
    destruct (roots (real_members all_members)) as [rs|e]; [|done].
    case_bool_decide; [done|].
    change (List.filter (λ m, negb (noise m)) ?l) with (real_members l).
    rewrite real_members_idem.
    by rewrite extractall_real by apply real_names_not_noise.
  - intros ops op. unfold extraction.
    destruct (roots (real_members all_members)) as [rs|e]; [|done].
    case_bool_decide.
    + destruct (elements rs) as [|r ?]; [done|]. intros [= <-] Hop.
      apply list_elem_of_In, in_flat_map in Hop as (m & Hm & Hop).
      apply list_elem_of_In, elem_of_real_members in Hm as [Hm Hnoise].
      exists m. split; [done|]. split; [done|]. left. eexists.
      apply list_elem_of_In, Hop.
    + change (List.filter (λ m, negb (noise m)) ?l) with (real_members l).
      destruct (extractall_names target all_members
                  (map filename (real_members all_members)))
        as (ops' & -> & _ & Hfrom); [apply real_names|].
      intros [= <-] Hop. destruct (Hfrom op Hop) as (n & m & Hn & Hget & Hin).
      apply getinfo_ok in Hget as [Hm <-].
      exists m. split; [done|]. split; [|by right].
      pose proof (real_names_not_noise all_members) as Hall.
      rewrite Forall_forall in Hall. by apply Hall.
Qed.

(** C10, as the specification states it, fails.  A file whose name is
    blank is left out of the top-level names, so the archive that holds
    only this file has no root: the other branch is taken and the file is
    written under the target. *)
Lemma C10_blank_name_is_extracted :
  let archive := [Member " " "data"] in
  let w := World {[ ["cache"] := Dir; ["cache"; "a.zip"] := File (Zip archive) ]} [] in
  roots (real_members archive) = Ok ∅
  ∧ extraction ["cache"; "out"] archive
    = Ok [MkdirP ["cache"; "out"]; WriteFile ["cache"; "out"; " "] "data"]
  ∧ ∃ w', expand ["cache"; "a.zip"] ["cache"; "out"] w = (Ok (), w')
          ∧ files w' !! ["cache"; "out"; " "] = Some (File (Bytes "data")).
Proof.
  intros archive w. split; [reflexivity|]. split; [reflexivity|].
  eexists. split; [vm_compute; reflexivity|]. vm_compute. reflexivity.
Qed.

Lemma truthy_strip_nonempty (s : string) : truthy (strip s) = true → s ≠ "".
Proof. by intros H ->. Qed.

Lemma roots_single_file (m : ZipInfo) :
  has_slash (filename m) = false →
  truthy (strip (filename m)) = true →
  filename m ≠ "." →
  roots [m] = Ok {[ filename m ]}.
Proof.
  intros Hslash Htruthy Hdot. unfold roots, top_levels, top_level.
  rewrite Htruthy, parts_plain; [|done|by apply truthy_strip_nonempty|done].
  by rewrite list_to_set_one.
Qed.

Lemma infolist_is_file (σ : fs) (p : path) (members : list ZipInfo) :
  infolist p σ = Ok members → path_exists σ p && path_is_file σ p = true.
Proof.
  unfold infolist, path_exists, path_is_file. by destruct (resolve σ p).
Qed.

(** C10, amended.  When the only entry that is not noise is a file at the
    top level (no ['/'] in its name) whose name is neither blank nor ["."],
    its name is the one root, the entry does not start with [<root>/], and
    nothing is extracted: [expand] makes the target directory (or fails to)
    and does nothing else to the files. *)
Theorem C10_single_top_level_file_is_dropped (target : path)
    (all_members : list ZipInfo) (m : ZipInfo) :
  real_members all_members = [m] →
  has_slash (filename m) = false →
  truthy (strip (filename m)) = true →
  filename m ≠ "." →
  roots (real_members all_members) = Ok {[ filename m ]}
  ∧ strip_root (rstrip_slash (filename m) +:+ "/") target m = []
  ∧ extraction target all_members = Ok []
  ∧ ∀ filepath w,
      infolist filepath (files w) = Ok all_members →
      expand filepath target w
      = match mkdir true true target (files w) with
        | Ok σ => (Ok (), World σ (events w ++ [Printed (Expanding filepath target)]))
        | Raise e =>
            (Raise e, World (files w) (events w ++ [Printed (Expanding filepath target)]))
        end.
Proof.
  intros Hreal Hslash Htruthy Hdot.
  assert (roots (real_members all_members) = Ok {[ filename m ]}) as Hroots
    by (rewrite Hreal; by apply roots_single_file).
  assert (strip_root (rstrip_slash (filename m) +:+ "/") target m = []) as Hstrip.
  { unfold strip_root. rewrite rstrip_slash_plain by done.
    by rewrite startswith_longer. }
  assert (extraction target all_members = Ok []) as Hext.
  { rewrite (extraction_single_root _ _ _ Hroots), Hreal. simpl.
    by rewrite Hstrip. }
  split; [done|]. split; [done|]. split; [done|].
  intros filepath w Hinfo. unfold expand. run.
  rewrite (infolist_is_file _ _ _ Hinfo). simpl.
  destruct (mkdir true true target (files w)) as [σ|e] eqn:Hmk; simpl; [|done].
  apply FsProps.mkdir_ok in Hmk as [Hsub _].
  rewrite (FsProps.infolist_subseteq _ _ _ _ Hsub Hinfo). simpl.
  rewrite Hext. done.
Qed.

Lemma C10_single_top_level_file_is_dropped_witness :
  let archive := [Member "__MACOSX/._x" "n"; Member "README.txt" "data"] in
  let w := World {[ ["cache"] := Dir; ["cache"; "a.zip"] := File (Zip archive) ]} [] in
  extraction ["cache"; "out"] archive = Ok []
  ∧ expand ["cache"; "a.zip"] ["cache"; "out"] w
    = (Ok (), World (<[ ["cache"; "out"] := Dir ]> (files w))
                    [Printed (Expanding ["cache"; "a.zip"] ["cache"; "out"])]).
Proof.
  intros archive w.
  pose proof (C10_single_top_level_file_is_dropped ["cache"; "out"] archive
                (Member "README.txt" "data") eq_refl eq_refl eq_refl)
    as (_ & _ & Hext & Hexpand); [done|].
  split; [exact Hext|].
  rewrite (Hexpand ["cache"; "a.zip"] w); vm_compute; reflexivity.
Defined.

Lemma split_slash_segments (s seg : string) :
  seg ∈ split_slash s → has_slash seg = false.
Proof.
  revert seg. induction s as [|c s IH]; intros seg; simpl.
  - intros ->%list_elem_of_singleton. done.
  - case_bool_decide as Hc.
    + intros [->|Hseg]%elem_of_cons; [done|by apply IH].
    + destruct (split_slash s) as [|seg0 segs] eqn:Hs.
      * intros ->%list_elem_of_singleton. simpl. by rewrite bool_decide_eq_false_2.
      * intros [->|Hseg]%elem_of_cons.
        -- simpl. rewrite bool_decide_eq_false_2 by done. apply IH. by left.
        -- apply IH. by right.
Qed.

Lemma plain_not_anchor (s : string) : has_slash s = false → is_anchor s = false.
Proof.
  unfold is_anchor. destruct s as [|c s]; [done|]. cbn [startswith has_slash].
  intros [Hc _]%orb_false_iff. apply bool_decide_eq_false in Hc.
  rewrite bool_decide_eq_false_2; [done|]. intros <-. by apply Hc.
Qed.

(** A name that does not start with ['/'] stays below the directory it is
    joined to. *)
Lemma joinpath_relative (target : path) (rest : string) :
  startswith rest "/" = false →
  joinpath target (parts rest) = target ++ parts rest.
Proof.
  intros Hrel. unfold parts, splitroot. rewrite Hrel. simpl.
  destruct (filter _ (split_slash rest)) as [|seg segs] eqn:Hf; simpl.
  - by rewrite app_nil_r.
  - assert (seg ∈ filter (λ x : string, x ≠ "" ∧ x ≠ ".") (split_slash rest)) as Hin
      by (rewrite Hf; left).
    apply list_elem_of_filter in Hin as [_ Hin].
    by rewrite (plain_not_anchor _ (split_slash_segments _ _ Hin)).
Qed.

(** C4, as the specification states it, fails.  Under the single root
    [root/] the entry [root/root/x.txt] loses the first [root/] only: the
    output has a [root] component under the target. *)
Lemma C4_nested_root_component_is_kept :
  let archive := [Member "root/" ""; Member "root/root/x.txt" "X"] in
  let w := World {[ ["cache"] := Dir; ["cache"; "a.zip"] := File (Zip archive) ]} [] in
  roots (real_members archive) = Ok {[ "root" ]}
  ∧ extraction ["cache"; "out"] archive
    = Ok [MkdirP ["cache"; "out"; "root"];
          WriteFile ["cache"; "out"; "root"; "x.txt"] "X"]
  ∧ ∃ w', expand ["cache"; "a.zip"] ["cache"; "out"] w = (Ok (), w')
          ∧ files w' !! ["cache"; "out"; "root"] = Some Dir
          ∧ files w' !! ["cache"; "out"; "root"; "x.txt"] = Some (File (Bytes "X")).
Proof.
  intros archive w. split; [vm_compute; reflexivity|]. split; [reflexivity|].
  eexists. split; [vm_compute; reflexivity|]. split; vm_compute; reflexivity.
Qed.

Lemma parts_absolute (s : string) :
  startswith s "/" = true → ∃ r tl, parts s = r :: tl ∧ is_anchor r = true.
Proof.
  intros Habs. unfold parts, splitroot. rewrite Habs. cbn [negb].
  destruct (startswith s "//" && negb (startswith s "///"));
    eexists _, _; (split; [reflexivity|reflexivity]).
Qed.

Lemma joinpath_absolute (target : path) (s : string) :
  startswith s "/" = true → joinpath target (parts s) = parts s.
Proof.
  intros (r & tl & -> & Hr)%parts_absolute. unfold joinpath. by rewrite Hr.
Qed.

Lemma normpath_go_plain (done plain : path) :
  Forall (λ x, x ≠ "..") plain → normpath_go done plain = rev done ++ plain.
Proof.
  revert done. induction plain as [|c plain IH]; intros done Hplain; simpl.
  - by rewrite app_nil_r.
  - apply Forall_cons in Hplain as [Hc Hplain].
    rewrite bool_decide_eq_false_2 by done. rewrite IH by done.
    simpl. by rewrite <- app_assoc.
Qed.

Lemma normpath_go_app (done todo plain : path) :
  Forall (λ x, x ≠ "..") plain →
  normpath_go done (todo ++ plain) = normpath_go done todo ++ plain.
Proof.
  intros Hplain. revert done. induction todo as [|c todo IH]; intros done; simpl.
  - by apply normpath_go_plain.
  - case_bool_decide; [|apply IH].
    destruct done as [|d done']; [apply IH|].
    destruct (is_anchor d); [apply IH|]. case_bool_decide; apply IH.
Qed.

Lemma arcname_plain (m : ZipInfo) : Forall (λ x, x ≠ "..") (arcname m).
Proof.
  apply Forall_forall. intros x Hx. unfold arcname in Hx.
  apply list_elem_of_In, filter_In in Hx as [_ Hx].
  apply negb_true_iff, orb_false_iff in Hx as [_ Hx].
  by apply bool_decide_eq_false in Hx.
Qed.

(** C4, amended.  When the entries that are not noise have one top-level
    name [r], the calls made are those of [strip_root] for the prefix
    [r/], whose first occurrence only is removed.  An entry named [r/]
    followed by [rest] is skipped when [rest] has no path component (it is
    empty, ["."] or the like); otherwise it is made (a directory) or
    written (a file, with its bytes) at the target joined with [rest], and
    it is there when [expand] has succeeded.  For a [rest] that does not
    start with ['/'] this path is the target followed by the components of
    [rest], and it stays below the target as long as none of them is
    [".."]; for a [rest] that starts with ['/'] it is [rest] itself.  When
    the entries have no top-level name or more than one, every entry that
    is not noise is made or written below the normalised target, at the
    segments of its whole name ([zipfile] leaves out the empty, ["."] and
    [".."] segments), with the bytes of the last entry of that name, and it
    is there when [expand] has succeeded. *)
Theorem C4_single_root_stripped_once_else_verbatim (target : path)
    (all_members : list ZipInfo) (rs : gset string) :
  roots (real_members all_members) = Ok rs →
  (∀ r, rs = {[ r ]} →
     extraction target all_members
     = Ok (flat_map (strip_root (rstrip_slash r +:+ "/") target)
                    (real_members all_members))
     ∧ ∀ m rest,
         m ∈ real_members all_members →
         filename m = (rstrip_slash r +:+ "/") +:+ rest →
         let outpath := joinpath target (parts rest) in
         strip_root (rstrip_slash r +:+ "/") target m
         = (match parts rest with
            | [] => []
            | _ :: _ =>
                if is_dir m then [MkdirP outpath]
                else [MkdirP (parent outpath); WriteFile outpath (data m)]
            end)
         ∧ (startswith rest "/" = false →
              outpath = target ++ parts rest
              ∧ (Forall (λ x, x ≠ "..") (parts rest) →
                   normpath outpath = normpath target ++ parts rest))
         ∧ (startswith rest "/" = true → outpath = parts rest)
         ∧ (parts rest ≠ [] →
            ∀ filepath w w',
              infolist filepath (files w) = Ok all_members →
              expand filepath target w = (Ok (), w') →
              extracted_at (files w') m outpath = true))
  ∧ (size rs ≠ 1 →
     ∃ ops, extraction target all_members = Ok ops
       ∧ ∀ m, m ∈ real_members all_members →
           let targetpath := normpath (target ++ arcname m) in
           targetpath = normpath target ++ arcname m
           ∧ (∃ m', getinfo (filename m) all_members = Ok m'
                    ∧ if is_dir m then MkdirP targetpath ∈ ops
                      else WriteFile targetpath (data m') ∈ ops)
           ∧ ∀ filepath w w',
               infolist filepath (files w) = Ok all_members →
               expand filepath target w = (Ok (), w') →
               extracted_at (files w') m targetpath = true).
Proof.
  intros Hroots. split.
  - intros r ->.
    pose proof (extraction_single_root target _ _ Hroots) as Hext.
    split; [done|].
    intros m rest Hm Hname outpath.
    assert (strip_root (rstrip_slash r +:+ "/") target m
            = match parts rest with
              | [] => []
              | _ :: _ =>
                  if is_dir m then [MkdirP outpath]
                  else [MkdirP (parent outpath); WriteFile outpath (data m)]
              end) as Hstrip.
    { unfold strip_root. by rewrite Hname, startswith_app, drop_str_app. }
    split; [done|]. split; [|split].
    + intros Hrel. unfold outpath. rewrite joinpath_relative by done.
      split; [done|]. intros Hplain. unfold normpath. by apply normpath_go_app.
    + apply joinpath_absolute.
    + intros Hparts filepath w w' Hinfo Hexp.
      destruct (expand_ok _ _ _ _ _ Hinfo Hexp) as (ops & Hops & _ & Hdone).
      rewrite Hext in Hops. injection Hops as <-.
      destruct (parts rest) as [|seg segs] eqn:Hp; [done|].
      unfold extracted_at. destruct (is_dir m).
      * apply (Hdone (MkdirP outpath)).
        apply list_elem_of_In, in_flat_map. exists m.
        split; [by apply list_elem_of_In|]. rewrite Hstrip. by left.
      * apply (Hdone (WriteFile outpath (data m))).
        apply list_elem_of_In, in_flat_map. exists m.
        split; [by apply list_elem_of_In|]. rewrite Hstrip. right. by left.
  - intros Hsize.
    assert (∃ ops, extraction target all_members = Ok ops
              ∧ ∀ n, n ∈ map filename (real_members all_members) →
                  ∃ m', getinfo n all_members = Ok m'
                        ∧ ∀ op, op ∈ extract_member target m' → op ∈ ops)
      as (ops & Hext & Hall).
    { unfold extraction. rewrite Hroots. rewrite bool_decide_eq_false_2 by done.
      change (List.filter (λ m, negb (noise m)) ?l) with (real_members l).
      destruct (extractall_names target all_members
                  (map filename (real_members all_members)))
        as (ops & -> & Hall & _); [apply real_names|]. by exists ops. }
    exists ops. split; [done|]. intros m Hm targetpath.
    split; [unfold targetpath, normpath; apply normpath_go_app, arcname_plain|].
    destruct (Hall (filename m)) as (m' & Hget & Hops).
    { apply list_elem_of_fmap. by exists m. }
    pose proof Hget as [_ Hname]%getinfo_ok.
    assert (arcname m' = arcname m) as Harc by (unfold arcname; by rewrite Hname).
    assert (is_dir m' = is_dir m) as Hdir by (unfold is_dir; by rewrite Hname).
    unfold extract_member in Hops. rewrite Harc, Hdir in Hops. fold targetpath in Hops.
    assert (if is_dir m then MkdirP targetpath ∈ ops
            else WriteFile targetpath (data m') ∈ ops) as Hin.
    { destruct (is_dir m); apply Hops; [by left|right; by left]. }
    split; [by exists m'|].
    intros filepath w w' Hinfo Hexp.
    destruct (expand_ok _ _ _ _ _ Hinfo Hexp) as (ops' & Hops' & _ & Hdone).
    rewrite Hext in Hops'. injection Hops' as <-.
    unfold extracted_at. destruct (is_dir m); by apply Hdone in Hin.
Qed.

Lemma C4_single_root_stripped_once_else_verbatim_witness :
  let archive := [Member "__MACOSX/._a" "n"; Member "root/" "";
                  Member "root/a.txt" "A"; Member "root/sub/b.txt" "B"] in
  extraction ["cache"; "out"] archive
  = Ok [MkdirP ["cache"; "out"]; WriteFile ["cache"; "out"; "a.txt"] "A";
        MkdirP ["cache"; "out"; "sub"];
        WriteFile ["cache"; "out"; "sub"; "b.txt"] "B"].
Proof.
  intros archive.
  pose proof (C4_single_root_stripped_once_else_verbatim ["cache"; "out"] archive
                {[ "root" ]}) as [Hsingle _]; [vm_compute; reflexivity|].
  destruct (Hsingle "root" eq_refl) as [Hext _]. exact Hext.
Defined.

End LoaderProps.

(** * More about [ig.py] *)

Module IgExtra.
Import Ig Flatten.

Ltac run := IgProps.run.

Section General.

Context {fhirspec : Fhirspec}.

Lemma resources_enqueued (es rs : list json) (s : state) :
  resources es = Ok rs →
  for_each (λ e, x ← lift (getitem e "resource"); put x) es s
  = (Ok (), with_queue (resource_queue s ++ rs) s).
Proof.
  revert rs s. induction es as [|e es IH]; intros rs s; simpl.
  - intros [= <-]. run. by rewrite IgProps.with_queue_same.
  - run. destruct (getitem e "resource") as [r|x]; [|done].
    destruct (resources es) as [rs'|x]; [|done]. intros [= <-].
    rewrite (IH rs') by done. simpl.
    rewrite IgProps.with_queue_twice. by rewrite <- app_assoc.
Qed.

Lemma expand_bundle_resources (parsed : json) (rs : list json) (s : state) :
  bundle_resources parsed = Ok rs →
  expand_bundle parsed s = (Ok (), with_queue (resource_queue s ++ rs) s).
Proof.
  unfold bundle_resources, expand_bundle. run.
  destruct (contains "entry" parsed) as [[|]|x]; [| |done].
  - destruct (getitem parsed "entry") as [entry|x]; [|done].
    destruct (iter entry) as [es|x]; [|done]. apply resources_enqueued.
  - intros [= <-]. by rewrite IgProps.with_queue_same.
Qed.



Lemma iteration_resources (parsed : json) (rs rest : list json) (s : state) :
  getitem parsed "resourceType" = Ok (JStr "Bundle") →
  bundle_resources parsed = Ok rs →
  iteration parsed rest s = (Ok (), with_queue (rest ++ rs) s).
Proof.
  intros Hrt Hrs. unfold iteration, dispatch. run. rewrite Hrt. simpl.
  by rewrite (expand_bundle_resources _ _ _ Hrs).
Qed.

Lemma eq_str_true (v : json) (u : string) : eq_str v u = true → v = JStr u.
Proof. destruct v; simpl; try done. by intros ->%bool_decide_eq_true. Qed.


(** ** The branches of the loop *)

Lemma dispatch_valueset (kvs : list (string * json)) (url : json) (k : pykey) (s : state) :
  obj_lookup "resourceType" kvs = Some (JStr "ValueSet") →
  obj_lookup "url" kvs = Some url → hashable url = Ok k →
  dispatch (JObj kvs) s
  = (Ok (), State (profiles s) (resource_queue s) (<[k := JObj kvs]> (valuesets s))
                  (codesystems s) (log s)).
Proof.
  intros Hrt Hurl Hk. unfold dispatch, classify. run.
  rewrite Hrt. simpl. rewrite Hurl. simpl. by rewrite Hk.
Qed.

(** Two ValueSets whose urls are the same dictionary key: the loop keeps
    the second, under that key, and says nothing about the first; the rest
    of the state is as it was. *)
Theorem valueset_last_write_wins (kvs1 kvs2 : list (string * json)) (url1 url2 : json)
    (k : pykey) (s : state) (fuel : nat) :
  obj_lookup "resourceType" kvs1 = Some (JStr "ValueSet") →
  obj_lookup "resourceType" kvs2 = Some (JStr "ValueSet") →
  obj_lookup "url" kvs1 = Some url1 → hashable url1 = Ok k →
  obj_lookup "url" kvs2 = Some url2 → hashable url2 = Ok k →
  2 ≤ fuel →
  while_loop fuel (with_queue [JObj kvs1; JObj kvs2] s)
  = Some (Ok (), State (profiles s) [] (<[k := JObj kvs2]> (valuesets s))
                       (codesystems s) (log s)).
Proof.
  intros Hrt1 Hrt2 Hurl1 Hk1 Hurl2 Hk2 Hfuel.
  destruct fuel as [|[|fuel]]; try lia.
  cbn [while_loop with_queue resource_queue]. unfold iteration, set_queue.
  unfold mbind at 1, M_bind at 1, modify at 1.
  rewrite (dispatch_valueset _ _ _ _ Hrt1 Hurl1 Hk1).
  cbn [while_loop with_queue resource_queue profiles valuesets codesystems log].
  unfold mbind at 1, M_bind at 1, modify at 1.
  rewrite (dispatch_valueset _ _ _ _ Hrt2 Hurl2 Hk2).
  cbn [with_queue resource_queue profiles valuesets codesystems log].
  rewrite insert_insert_eq. by destruct fuel.
Qed.

(** A ValueSet or a CodeSystem without ["url"] fails the assertion of
    line 52 or 55: the loop ends there with [AssertionError], the records
    behind it stay on the queue, and nothing else has changed. *)
Theorem record_without_url_is_fatal (kvs : list (string * json)) (rt : string)
    (rest : list json) (s : state) (fuel : nat) :
  rt = "ValueSet" ∨ rt = "CodeSystem" →
  obj_lookup "resourceType" kvs = Some (JStr rt) →
  obj_lookup "url" kvs = None →
  resource_queue s = JObj kvs :: rest →
  while_loop (S fuel) s = Some (Raise AssertionError, with_queue rest s).
Proof.
  intros Hkind Hrt Hurl Hq. cbn [while_loop]. rewrite Hq.
  unfold iteration, dispatch, classify. run. rewrite Hrt. simpl.
  destruct Hkind as [-> | ->]; simpl; by rewrite Hurl.
Qed.

(** A record whose [resourceType] is none of the four the loop knows is
    warned about and dropped; the loop goes on with the rest of the queue. *)
Theorem unknown_resourceType_is_warned_and_dropped (parsed rt : json)
    (rest : list json) (s : state) (fuel : nat) :
  getitem parsed "resourceType" = Ok rt →
  eq_str rt "Bundle" = false → eq_str rt "StructureDefinition" = false →
  eq_str rt "ValueSet" = false → eq_str rt "CodeSystem" = false →
  resource_queue s = parsed :: rest →
  while_loop (S fuel) s
  = while_loop fuel (with_log (log s ++ [Warning (UnknownResourceType rt)])
                              (with_queue rest s)).
Proof.
  intros Hrt Hb Hsd Hvs Hcs Hq. cbn [while_loop]. rewrite Hq.
  rewrite (IgProps.iteration_leaf _ _ _ _ Hrt Hb). unfold classify.
  by rewrite Hsd, Hvs, Hcs.
Qed.

(** A Bundle without ["entry"], or with an empty list of entries, leaves
    no trace: nothing is put on the queue and nothing is logged. *)
Theorem empty_bundle_leaves_no_trace (kvs : list (string * json)) (rest : list json)
    (s : state) (fuel : nat) :
  obj_lookup "resourceType" kvs = Some (JStr "Bundle") →
  obj_lookup "entry" kvs = None ∨ obj_lookup "entry" kvs = Some (JArr []) →
  resource_queue s = JObj kvs :: rest →
  while_loop (S fuel) s = while_loop fuel (with_queue rest s).
Proof.
  intros Hrt Hentry Hq. cbn [while_loop]. rewrite Hq.
  rewrite (iteration_resources (JObj kvs) [] rest s).
  - by rewrite app_nil_r.
  - simpl. by rewrite Hrt.
  - unfold bundle_resources. simpl. by destruct Hentry as [-> | ->].
Qed.

(** An entry without ["resource"] makes line 48 raise [KeyError]: the loop
    ends there, with the resources of the entries before it already on the
    queue behind the records that were waiting. *)
Theorem entry_without_resource_is_fatal (b : json) (es1 es2 rs1 rest : list json)
    (kvs : list (string * json)) (s : state) (fuel : nat) :
  getitem b "resourceType" = Ok (JStr "Bundle") →
  getitem b "entry" = Ok (JArr (es1 ++ JObj kvs :: es2)) →
  resources es1 = Ok rs1 →
  obj_lookup "resource" kvs = None →
  resource_queue s = b :: rest →
  while_loop (S fuel) s = Some (Raise KeyError, with_queue (rest ++ rs1) s).
Proof.
  intros Hrt Hentry Hrs Hres Hq. cbn [while_loop]. rewrite Hq.
  unfold iteration, dispatch, expand_bundle. run. rewrite Hrt. simpl.
  rewrite (IgProps.getitem_contains _ _ _ Hentry), Hentry. simpl.
  rewrite IgProps.for_each_app, (resources_enqueued _ _ _ Hrs). simpl.
  run. by rewrite Hres.
Qed.

(** ** The files *)

Lemma read_file_typed (name : string) (kvs : list (string * json)) (v : json)
    (s : state) :
  obj_lookup "resourceType" kvs = Some v →
  read_file (IgFile name (Parsed (JObj kvs))) s
  = (Ok (), with_queue (resource_queue s ++ [JObj kvs]) s).
Proof. intros H. unfold read_file, json_load. run. by rewrite H. Qed.

(** When every file holds a JSON object, reading the files puts on the
    queue the objects that have a ["resourceType"], in the order of the
    files, and logs one warning for each of the others, in that order;
    nothing else changes. *)
Theorem read_files_keeps_typed_objects (named : list (string * list (string * json)))
    (s : state) :
  let typed := λ f : string * list (string * json),
                 is_Some (obj_lookup "resourceType" f.2) in
  for_each read_file (map (λ f, IgFile f.1 (Parsed (JObj f.2))) named) s
  = (Ok (),
     with_log (log s ++ map (λ f, Warning (MissingResourceType f.1))
                            (filter (λ f, ¬ typed f) named))
       (with_queue (resource_queue s ++ map (λ f, JObj f.2) (filter typed named)) s)).
Proof.
  intros typed. revert s.
  induction named as [|[name kvs] named IH]; intros s.
  - simpl. run. rewrite !app_nil_r. by destruct s.
  - cbn [map for_each]. unfold mbind, M_bind. cbn [fst snd].
    destruct (obj_lookup "resourceType" kvs) as [v|] eqn:E.
    + assert (typed (name, kvs)) as Ht by (unfold typed; simpl; rewrite E; eauto).
      rewrite (filter_cons_True typed), (filter_cons_False (λ f, ¬ typed f)); [|tauto|done].
      rewrite (read_file_typed _ _ v) by done. rewrite IH. simpl.
      by rewrite <- app_assoc.
    + assert (¬ typed (name, kvs)) as Ht
        by (unfold typed; simpl; rewrite E; by intros [? ?]).
      rewrite (filter_cons_False typed), (filter_cons_True (λ f, ¬ typed f)); [|done|done].
      rewrite IgProps.read_file_without_resourceType by done. rewrite IH. simpl.
      by rewrite <- app_assoc.
Qed.

(** ** What the loop keeps *)

Lemma only_grows_refl (s : state) : only_grows s s.
Proof. by repeat split. Qed.

Lemma only_grows_trans (s1 s2 s3 : state) :
  only_grows s1 s2 → only_grows s2 s3 → only_grows s1 s3.
Proof.
  intros (Hv1 & Hc1 & Hp1 & Hl1) (Hv2 & Hc2 & Hp2 & Hl2).
  repeat split; by etrans.
Qed.

Lemma classify_only_grows (rt parsed : json) (s : state) (r : result unit) (s' : state) :
  classify rt parsed s = (r, s') → only_grows s s'.
Proof.
  unfold classify. run.
  repeat case_match; intros; simplify_eq; unfold only_grows; simpl;
    repeat split; try done; try (by apply prefix_app_r);
    rewrite dom_insert_L; set_solver.
Qed.

Lemma iteration_only_grows (parsed : json) (rest : list json) (s : state)
    (r : result unit) (s' : state) :
  iteration parsed rest s = (r, s') → only_grows s s'.
Proof.
  unfold iteration, dispatch. run.
  destruct (getitem parsed "resourceType") as [rt|x].
  - destruct (eq_str rt "Bundle").
    + intros H. apply IgProps.expand_bundle_queue in H as (rs & -> & _).
      by repeat split.
    + intros H. apply classify_only_grows in H. by destruct H as (? & ? & ? & ?).
  - intros [= <- <-]. by repeat split.
Qed.

(** However the loop ends, no key has left [spec.valuesets] or
    [spec.codesystems], and the profiles and the log have only been
    appended to. *)
Theorem loop_only_grows (fuel : nat) (s : state) (r : result unit) (s' : state) :
  while_loop fuel s = Some (r, s') → only_grows s s'.
Proof.
  revert s. induction fuel as [|fuel IH]; intros s; simpl.
  - destruct (resource_queue s); [|done]. intros [= <- <-]. apply only_grows_refl.
  - destruct (resource_queue s) as [|parsed rest].
    + intros [= <- <-]. apply only_grows_refl.
    + destruct (iteration parsed rest s) as [[u|x] s1] eqn:Hit.
      * intros H. apply iteration_only_grows in Hit. apply IH in H.
        by eapply only_grows_trans.
      * intros [= <- <-]. by apply iteration_only_grows in Hit.
Qed.

(** ** Where the records come from *)

Lemma iteration_origin (parsed : json) (rest : list json) (s : state)
    (r : result unit) (s' : state) (x : json) :
  iteration parsed rest s = (r, s') → x ∈ resource_queue s' →
  x ∈ rest ∨ entry_resource parsed x.
Proof.
  unfold iteration, dispatch. run.
  destruct (getitem parsed "resourceType") as [rt|err] eqn:Hrt.
  - destruct (eq_str rt "Bundle") eqn:Hb.
    + apply eq_str_true in Hb as ->. unfold expand_bundle. run.
      destruct (contains "entry" parsed) as [[|]|err]; [| |].
      * destruct (getitem parsed "entry") as [entry|err] eqn:He.
        -- destruct (iter entry) as [es|err] eqn:Hi.
           ++ intros H. apply IgProps.enqueue_entries in H as (rs & -> & _ & Hin).
              simpl. intros [Hx|Hx]%elem_of_app; [by left|right].
              destruct (Hin x Hx) as (e & Hes & Hres).
              split; [done|]. by exists entry, es, e.
           ++ intros [= <- <-]. by left.
        -- intros [= <- <-]. by left.
      * intros [= <- <-]. by left.
      * intros [= <- <-]. by left.
    + intros H. apply IgProps.classify_queue in H as ->. by left.
  - intros [= <- <-]. by left.
Qed.

(** The loop takes from the queue only records that were on it at the
    start and resources of entries of Bundles it took before: it invents
    none. *)
Theorem processed_records_have_an_origin (fuel : nat) (s : state) (x : json) :
  x ∈ processed fuel s →
  x ∈ resource_queue s ∨ ∃ b, b ∈ processed fuel s ∧ entry_resource b x.
Proof.
  revert s. induction fuel as [|fuel IH]; intros s; simpl.
  - destruct (resource_queue s); intros H; by apply elem_of_nil in H.
  - destruct (resource_queue s) as [|parsed rest] eqn:Hq.
    + intros H. by apply elem_of_nil in H.
    + intros [->|Hx]%elem_of_cons; [left; left|].
      destruct (iteration parsed rest s) as [[u|err] s1] eqn:Hit;
        [|by apply elem_of_nil in Hx].
      destruct (IH s1 Hx) as [Hin|(b & Hb & Hres)].
      * destruct (iteration_origin _ _ _ _ _ _ Hit Hin) as [Hrest|Hres].
        -- left. by right.
        -- right. exists parsed. split; [left|done].
      * right. exists b. split; [by right|done].
Qed.

(** ** Documents that are not objects *)

(** A file whose document is not a JSON object is never classified: for
    [null], a boolean or a number the test of line 38 raises [TypeError];
    a list or a string either lacks ["resourceType"] and is warned about,
    or passes the test and makes line 44 raise [TypeError].  The
    collections are left as they were and no profile is collected. *)
Theorem non_object_document_is_never_classified (name : string) (doc : json)
    (s : state) (fuel : nat) :
  (∀ kvs, doc ≠ JObj kvs) →
  ∃ r s', add_igs_to_spec (S fuel) [IgFile name (Parsed doc)] s = Some (r, s')
    ∧ valuesets s' = valuesets s ∧ codesystems s' = codesystems s
    ∧ profiles s' = []
    ∧ (r = Raise TypeError
       ∨ (r = Ok ()
          ∧ log s' = log s ++ [Warning (MissingResourceType name);
                               Info (Found (size (valuesets s)) (size (codesystems s)))])).
Proof.
  intros Hdoc. unfold add_igs_to_spec, read_file, json_load. simpl. run.
  destruct doc as [|b|z|u|items|kvs]; simpl.
  - eexists _, _. split; [done|]. repeat split; by left.
  - eexists _, _. split; [done|]. repeat split; by left.
  - eexists _, _. split; [done|]. repeat split; by left.
  - destruct (substring "resourceType" u); simpl.
    + eexists _, _. split; [done|]. repeat split; by left.
    + eexists _, _. split; [done|]. repeat split; try done. right.
      split; [done|]. simpl. by rewrite <- app_assoc.
  - destruct (existsb _ items); simpl.
    + eexists _, _. split; [done|]. repeat split; by left.
    + eexists _, _. split; [done|]. repeat split; try done. right.
      split; [done|]. simpl. by rewrite <- app_assoc.
  - by destruct (Hdoc kvs).
Qed.

End General.

(** ** Examples

    The statements above hold whatever [fhirspec] does with a code system.
    The examples are run with the constructor that accepts every record. *)

Section Examples.

#[local] Existing Instance accepting.


Lemma valueset_last_write_wins_witness :
  let v1 := [("resourceType", JStr "ValueSet"); ("url", JStr "http://x/vs/1");
             ("name", JStr "first")] in
  let v2 := [("resourceType", JStr "ValueSet"); ("url", JStr "http://x/vs/1");
             ("name", JStr "second")] in
  while_loop 2 (with_queue [JObj v1; JObj v2] (State [] [] ∅ ∅ []))
  = Some (Ok (), State [] [] {[ KStr "http://x/vs/1" := JObj v2 ]} ∅ []).
Proof.
  intros v1 v2.
  exact (valueset_last_write_wins v1 v2 (JStr "http://x/vs/1") (JStr "http://x/vs/1")
           (KStr "http://x/vs/1") (State [] [] ∅ ∅ []) 2
           eq_refl eq_refl eq_refl eq_refl eq_refl eq_refl (le_n 2)).
Defined.

Lemma record_without_url_is_fatal_witness :
  while_loop 3 (State [] [JObj [("resourceType", JStr "CodeSystem")];
                          JObj [("resourceType", JStr "StructureDefinition")]] ∅ ∅ [])
  = Some (Raise AssertionError,
          State [] [JObj [("resourceType", JStr "StructureDefinition")]] ∅ ∅ []).
Proof.
  exact (record_without_url_is_fatal [("resourceType", JStr "CodeSystem")] "CodeSystem"
           [JObj [("resourceType", JStr "StructureDefinition")]]
           (State [] [JObj [("resourceType", JStr "CodeSystem")];
                      JObj [("resourceType", JStr "StructureDefinition")]] ∅ ∅ [])
           2 (or_intror eq_refl) eq_refl eq_refl eq_refl).
Defined.

Lemma unknown_resourceType_is_warned_and_dropped_witness :
  while_loop 1 (State [] [JObj [("resourceType", JStr "Patient")]] ∅ ∅ [])
  = Some (Ok (), State [] [] ∅ ∅ [Warning (UnknownResourceType (JStr "Patient"))]).
Proof.
  exact (unknown_resourceType_is_warned_and_dropped
           (JObj [("resourceType", JStr "Patient")]) (JStr "Patient") []
           (State [] [JObj [("resourceType", JStr "Patient")]] ∅ ∅ []) 0
           eq_refl eq_refl eq_refl eq_refl eq_refl eq_refl).
Defined.

Lemma empty_bundle_leaves_no_trace_witness :
  while_loop 1 (State [] [JObj [("resourceType", JStr "Bundle"); ("type", JStr "collection")]]
                      ∅ ∅ [])
  = Some (Ok (), State [] [] ∅ ∅ []).
Proof.
  exact (empty_bundle_leaves_no_trace
           [("resourceType", JStr "Bundle"); ("type", JStr "collection")] []
           (State [] [JObj [("resourceType", JStr "Bundle"); ("type", JStr "collection")]]
                  ∅ ∅ [])
           0 eq_refl (or_introl eq_refl) eq_refl).
Defined.

Lemma entry_without_resource_is_fatal_witness :
  let leaf := JObj [("resourceType", JStr "StructureDefinition")] in
  let b := JObj [("resourceType", JStr "Bundle");
                 ("entry", JArr [JObj [("resource", leaf)]; JObj [("fullUrl", JStr "u")]])] in
  while_loop 1 (State [] [b] ∅ ∅ []) = Some (Raise KeyError, State [] [leaf] ∅ ∅ []).
Proof.
  intros leaf b.
  exact (entry_without_resource_is_fatal b [JObj [("resource", leaf)]] [] [leaf] []
           [("fullUrl", JStr "u")] (State [] [b] ∅ ∅ []) 0
           eq_refl eq_refl eq_refl eq_refl eq_refl).
Defined.

Lemma loop_only_grows_witness :
  let old := JObj [("resourceType", JStr "ValueSet"); ("url", JStr "http://x/vs/0")] in
  let new := JObj [("resourceType", JStr "CodeSystem")] in
  only_grows (State [] [new] {[ KStr "http://x/vs/0" := old ]} ∅ [])
             (State [] [] {[ KStr "http://x/vs/0" := old ]} ∅ []).
Proof.
  intros old new.
  exact (loop_only_grows 1 (State [] [new] {[ KStr "http://x/vs/0" := old ]} ∅ [])
           (Raise AssertionError) _ eq_refl).
Defined.

Lemma processed_records_have_an_origin_witness :
  let leaf := JObj [("resourceType", JStr "StructureDefinition")] in
  let s := State [] [bundle [leaf]] ∅ ∅ [] in
  leaf ∈ resource_queue s ∨ ∃ b, b ∈ processed 2 s ∧ entry_resource b leaf.
Proof.
  intros leaf s.
  apply (processed_records_have_an_origin 2 s leaf).
  vm_compute. right. left.
Defined.

Lemma non_object_document_is_never_classified_witness :
  ∃ r s', add_igs_to_spec 1 [IgFile "list.json" (Parsed (JArr [JStr "resourceType"]))]
                          (State [] [] ∅ ∅ []) = Some (r, s')
    ∧ valuesets s' = ∅ ∧ codesystems s' = ∅ ∧ profiles s' = []
    ∧ (r = Raise TypeError
       ∨ (r = Ok ()
          ∧ log s' = [] ++ [Warning (MissingResourceType "list.json");
                            Info (Found (size (∅ : gmap pykey json))
                                        (size (∅ : gmap pykey json)))])).
Proof.
  apply (non_object_document_is_never_classified "list.json" (JArr [JStr "resourceType"])
           (State [] [] ∅ ∅ []) 0).
  intros kvs. discriminate.
Defined.

End Examples.

End IgExtra.

(** * The work queue of [add_igs_to_spec]: when it ends, and how *)

Module IgLoop.
Import Ig Flatten WellFormed.

Ltac run := IgProps.run.

Section General.

Context {fhirspec : Fhirspec}.












End General.

(** ** Examples

    The examples are run with the constructor that accepts every record. *)

Section Examples.

#[local] Existing Instance accepting.



End Examples.

End IgLoop.

(** * More about [fhirloader.py] *)

Module LoaderExtra.
Import Loader Cache.

Ltac run := LoaderProps.run.

(** ** [expand] outside its domain *)

(** Without a regular file at [filepath] the assertion of line 89 fails:
    nothing is printed and no directory is made. *)
Theorem expand_requires_a_regular_file (filepath target : path) (w : world) :
  path_is_file (files w) filepath = false →
  expand filepath target w = (Raise AssertionError, w).
Proof.
  intros Hfile. unfold expand. run. by rewrite Hfile, andb_false_r.
Qed.

Lemma expand_requires_a_regular_file_witness :
  expand ["cache"; "a.zip"] ["cache"; "out"] (World {[ ["cache"] := Dir ]} [])
  = (Raise AssertionError, World {[ ["cache"] := Dir ]} []).
Proof.
  apply (expand_requires_a_regular_file ["cache"; "a.zip"] ["cache"; "out"]
           (World {[ ["cache"] := Dir ]} [])).
  vm_compute. reflexivity.
Defined.

Lemma resolve_is_file (σ : fs) (p key : path) (c : content) :
  resolve σ p = IsFile key c → path_exists σ p && path_is_file σ p = true.
Proof. intros H. unfold path_exists, path_is_file. by rewrite H. Qed.

(** A file that is not an archive is refused by [zipfile] only after the
    target directory was made (line 95 comes before line 97): [expand]
    raises [BadZipFile] and leaves the new directory behind. *)
Theorem expand_of_a_plain_file (filepath target key : path) (bytes : string)
    (w : world) (σ : fs) :
  resolve (files w) filepath = IsFile key (Bytes bytes) →
  mkdir true true target (files w) = Ok σ →
  expand filepath target w
  = (Raise BadZipFile, World σ (events w ++ [Printed (Expanding filepath target)]))
  ∧ path_is_dir σ target = true.
Proof.
  intros Hres Hmk. pose proof (FsProps.mkdir_ok _ _ _ _ _ Hmk) as [Hsub Hdir].
  split; [|done]. unfold expand. run.
  rewrite (resolve_is_file _ _ _ _ Hres). simpl. rewrite Hmk. simpl.
  unfold infolist. by rewrite (FsProps.resolve_subseteq _ _ _ _ _ Hsub Hres).
Qed.

Lemma expand_of_a_plain_file_witness :
  let w := World {[ ["cache"] := Dir; ["cache"; "version.info"] := File (Bytes "4.0.1") ]} [] in
  expand ["cache"; "version.info"] ["cache"; "out"] w
  = (Raise BadZipFile,
     World (<[ ["cache"; "out"] := Dir ]> (files w))
           [Printed (Expanding ["cache"; "version.info"] ["cache"; "out"])])
  ∧ path_is_dir (<[ ["cache"; "out"] := Dir ]> (files w)) ["cache"; "out"] = true.
Proof.
  intros w.
  apply (expand_of_a_plain_file ["cache"; "version.info"] ["cache"; "out"]
           ["cache"; "version.info"] "4.0.1" w); vm_compute; reflexivity.
Defined.

Lemma top_levels_index_error (members : list ZipInfo) (m : ZipInfo) :
  m ∈ members → truthy (strip (filename m)) = true → parts (filename m) = [] →
  top_levels members = Raise IndexError.
Proof.
  intros Hin Htruthy Hparts.
  induction members as [|m0 members IH]; [by apply elem_of_nil in Hin|].
  simpl. apply elem_of_cons in Hin as [<-|Hin].
  - unfold top_level. by rewrite Htruthy, Hparts.
  - specialize (IH Hin). destruct (truthy (strip (filename m0))); [|done].
    unfold top_level. destruct (parts (filename m0)); [done|]. by rewrite IH.
Qed.

(** An entry that is not noise and whose name is not blank but has no
    path component (["."], ["./"], ["././"]) makes [parts[0]] of line 107
    raise [IndexError]: nothing is extracted, whatever else the archive
    holds. *)
Theorem entry_without_parts_is_fatal (target : path) (all_members : list ZipInfo)
    (m : ZipInfo) :
  m ∈ all_members → noise m = false →
  truthy (strip (filename m)) = true → parts (filename m) = [] →
  extraction target all_members = Raise IndexError.
Proof.
  intros Hin Hnoise Htruthy Hparts. unfold extraction, roots.
  rewrite (top_levels_index_error _ m); try done.
  by apply LoaderProps.elem_of_real_members.
Qed.

Lemma entry_without_parts_is_fatal_witness :
  extraction ["cache"; "out"] [Member "root/a.txt" "A"; Member "./" ""]
  = Raise IndexError.
Proof.
  apply (entry_without_parts_is_fatal ["cache"; "out"]
           [Member "root/a.txt" "A"; Member "./" ""] (Member "./" ""));
    [right; left | reflexivity | reflexivity | reflexivity].
Defined.

(** ** The flags of [load] *)

Section Flags.

Variable base_url : string.
Variable cache : path.
Variable fetch : string → path → fs → result path * fs.

Lemma check_files_cache_only (needs : list (string * (string * option string)))
    (uses_cache : bool) (w : world) :
  check_files base_url cache fetch true uses_cache needs w
  = match List.find (missing cache (files w)) needs with
    | Some need => (Raise (Exception_ ("Resource missing from cache: " +:+ need.1)), w)
    | None => (Ok (match needs with [] => uses_cache | _ :: _ => true end), w)
    end.
Proof.
  revert uses_cache. induction needs as [|[local remote] needs IH];
    intros uses_cache; [done|].
  cbn [check_files List.find]. unfold missing at 1. cbn [fst].
  unfold mbind, M_bind, check_file. run.
  destruct (path_exists (files w) (joinpath cache (parts local))); simpl; [|done].
  rewrite IH. destruct (List.find _ needs); [done|]. by destruct needs.
Qed.

End Flags.

Lemma load_cache_only (base_url : string) (cache : path)
    (needs : list (string * (string * option string)))
    (fetch : string → path → fs → result path * fs) (w : world) :
  path_exists (files w) cache = true →
  load base_url cache needs fetch false true w
  = match List.find (missing cache (files w)) needs with
    | Some need => (Raise (Exception_ ("Resource missing from cache: " +:+ need.1)), w)
    | None =>
        (Ok cache,
         World (files w)
               (events w ++ match needs with [] => [] | _ :: _ => [Logged UsingCache] end))
    end.
Proof.
  intros Hcache. unfold load. run. rewrite Hcache. simpl. rewrite Hcache. simpl.
  rewrite check_files_cache_only.
  destruct (List.find _ needs); [done|].
  destruct needs; simpl; [|done]. rewrite app_nil_r. by destruct w.
Qed.

(** In cache-only mode, on an existing cache directory, [load] neither
    fetches nor writes: either every artifact is there and it returns the
    directory with the notice, or it raises for the first artifact of the
    manifest that is missing, and the world is untouched. *)
Theorem cache_only_load_never_fetches (base_url : string) (cache : path)
    (needs : list (string * (string * option string)))
    (fetch : string → path → fs → result path * fs) (w : world) :
  path_exists (files w) cache = true →
  load base_url cache needs fetch false true w
  = match List.find (missing cache (files w)) needs with
    | Some need => (Raise (Exception_ ("Resource missing from cache: " +:+ need.1)), w)
    | None =>
        (Ok cache,
         World (files w)
               (events w ++ match needs with [] => [] | _ :: _ => [Logged UsingCache] end))
    end.
Proof. apply load_cache_only. Qed.

Lemma cache_only_load_never_fetches_witness :
  let w := World {[ ["cache"] := Dir;
                    ["cache"; "version.info"] := File (Bytes "4.0.1") ]} [] in
  load "http://hl7.org/fhir" ["cache"] FHIRLoader_needs
       (λ _ _ σ, (Raise DownloadError, σ)) false true w
  = (Raise (Exception_ "Resource missing from cache: examples-json.zip"), w).
Proof.
  intros w.
  apply (cache_only_load_never_fetches "http://hl7.org/fhir" ["cache"] FHIRLoader_needs
           (λ _ _ σ, (Raise DownloadError, σ)) w).
  vm_compute. reflexivity.
Defined.

(** With [force_download] (and without [force_cache]) on an existing cache
    directory, [load] removes the directory with everything below it and
    then does what the default [load] does on what is left: no artifact
    cached before is there to be reused. *)
Theorem force_download_starts_from_nothing (base_url : string) (cache key : path)
    (needs : list (string * (string * option string)))
    (fetch : string → path → fs → result path * fs) (w : world) :
  resolve (files w) cache = IsDir key →
  ∃ σ, rmtree cache (files w) = Ok σ
       ∧ (∀ k, key `prefix_of` k → σ !! k = None)
       ∧ load base_url cache needs fetch true false w
         = load base_url cache needs fetch false false
                (World σ (events w ++ [Deleted cache])).
Proof.
  intros Hres.
  exists (filter (λ kv : path * node, ¬ key `prefix_of` kv.1) (files w)).
  split; [|split].
  - unfold rmtree. by rewrite Hres.
  - intros k Hk. apply map_lookup_filter_None. right. intros n _ Hn. by apply Hn.
  - unfold load. run. unfold path_exists at 1. rewrite Hres. simpl.
    unfold rmtree. rewrite Hres. simpl. by rewrite andb_false_r.
Qed.

Lemma force_download_starts_from_nothing_witness :
  let w := World {[ ["cache"] := Dir;
                    ["cache"; "version.info"] := File (Bytes "4.0.1") ]} [] in
  ∃ σ, rmtree ["cache"] (files w) = Ok σ
       ∧ (∀ k, ["cache"] `prefix_of` k → σ !! k = None)
       ∧ load "http://hl7.org/fhir" ["cache"] FHIRLoader_needs
              (λ _ _ σ', (Raise DownloadError, σ')) true false w
         = load "http://hl7.org/fhir" ["cache"] FHIRLoader_needs
                (λ _ _ σ', (Raise DownloadError, σ')) false false
                (World σ (events w ++ [Deleted ["cache"]])).
Proof.
  intros w.
  apply (force_download_starts_from_nothing "http://hl7.org/fhir" ["cache"] ["cache"]
           FHIRLoader_needs (λ _ _ σ', (Raise DownloadError, σ')) w).
  vm_compute. reflexivity.
Defined.

(** ** Nothing is lost *)

Lemma on_files_grows (f : fs → result fs) (w : world) :
  (∀ σ', f (files w) = Ok σ' → grows (files w) σ') →
  grows (files w) (files (on_files f w).2).
Proof.
  intros Hf. unfold on_files. destruct (f (files w)) as [σ'|e]; simpl.
  - by apply Hf.
  - apply FsProps.grows_refl.
Qed.

Lemma mkdir_grows (parents exist_ok : bool) (p : path) (w : world) :
  grows (files w) (files (on_files (mkdir parents exist_ok p) w).2).
Proof.
  apply on_files_grows. intros σ' [Hsub _]%FsProps.mkdir_ok.
  by apply FsProps.subseteq_grows.
Qed.

Lemma run_op_grows (op : fs_op) (w : world) :
  grows (files w) (files (run_op op w).2).
Proof.
  destruct op as [p|p bytes]; simpl.
  - apply mkdir_grows.
  - apply on_files_grows. by intros σ' [Hg _]%FsProps.write_file_ok.
Qed.

Lemma run_ops_grows (ops : list fs_op) (w : world) :
  grows (files w) (files (for_each run_op ops w).2).
Proof.
  revert w. induction ops as [|op ops IH]; intros w; simpl.
  - apply FsProps.grows_refl.
  - unfold mbind, M_bind. pose proof (run_op_grows op w) as Hop.
    destruct (run_op op w) as [[[]|e] w1]; simpl in *; [|done].
    eapply FsProps.grows_trans; [done|apply IH].
Qed.

Lemma expand_grows (filepath target : path) (w : world) :
  grows (files w) (files (expand filepath target w).2).
Proof.
  unfold expand. unfold mbind, M_bind, get, assert. simpl.
  destruct (path_exists (files w) filepath && path_is_file (files w) filepath);
    simpl; [|apply FsProps.grows_refl].
  unfold emit, modify. simpl.
  pose proof (mkdir_grows true true target
                (World (files w) (events w ++ [Printed (Expanding filepath target)])))
    as Hmk.
  destruct (on_files (mkdir true true target) _) as [[[]|e] w1]; simpl in *; [|done].
  unfold lift. destruct (infolist filepath (files w1)) as [all_members|e]; [|done].
  destruct (extraction target all_members) as [ops|e]; [|done].
  eapply FsProps.grows_trans; [done|apply run_ops_grows].
Qed.

(** Whatever its outcome, [expand] takes away no directory and no file:
    what was a directory is one afterwards, and there is a file wherever
    there was one (its bytes may have been replaced). *)
Theorem expand_never_removes (filepath target : path) (w : world) :
  grows (files w) (files (expand filepath target w).2).
Proof. apply expand_grows. Qed.

Section Keeps.

Variable base_url : string.
Variable cache : path.
Variable fetch : string → path → fs → result path * fs.

Hypothesis fetch_grows : ∀ url σ, grows σ (fetch url cache σ).2.

Lemma expand_target_grows (expand_dir : option string) (w : world) :
  grows (files w) (files (expand_target cache expand_dir w).2).
Proof.
  unfold expand_target. destruct expand_dir as [d|]; [|apply FsProps.grows_refl].
  destruct (truthy d); [|apply FsProps.grows_refl].
  unfold mbind, M_bind, get. simpl.
  destruct (path_exists (files w) (joinpath cache (parts d))); simpl;
    [apply FsProps.grows_refl|].
  pose proof (mkdir_grows false false (joinpath cache (parts d)) w) as Hmk.
  by destruct (on_files _ w) as [[[]|e] w1].
Qed.

Lemma download_grows (filename : string) (w : world) :
  grows (files w) (files (download base_url cache fetch filename w).2).
Proof using fetch_grows.
  unfold download, call_fetch, emit, modify, mbind, M_bind. simpl.
  pose proof (fetch_grows (base_url +:+ "/" +:+ filename) (files w)) as Hf.
  by destruct (fetch _ cache (files w)) as [r σ].
Qed.

Lemma check_file_grows (force_cache uses_cache : bool)
    (need : string * (string * option string)) (w : world) :
  grows (files w)
        (files (check_file base_url cache fetch force_cache uses_cache need w).2).
Proof using fetch_grows.
  destruct need as [local [remote expand_dir]]. unfold check_file.
  unfold mbind at 1, M_bind at 1, get. simpl.
  destruct (path_exists (files w) (joinpath cache (parts local))); simpl;
    [apply FsProps.grows_refl|].
  destruct force_cache; simpl.
  - unfold mbind, M_bind, raise. simpl. apply FsProps.grows_refl.
  - unfold mbind at 1, M_bind at 1, mret, M_ret. simpl.
    unfold mbind at 1, M_bind at 1, emit, modify. simpl.
    unfold mbind at 1, M_bind at 1.
    set (w0 := World (files w) (events w ++ [Logged (Downloading (remote, expand_dir))])).
    pose proof (download_grows remote w0) as Hd. change (files w0) with (files w) in Hd.
    destruct (download base_url cache fetch remote w0) as [[filepath|e] w1];
      simpl in *; [|done].
    unfold mbind at 1, M_bind at 1.
    case_bool_decide as Hzip; simpl; [|done].
    unfold mbind at 1, M_bind at 1, emit, modify. simpl.
    set (w2 := World (files w1) (events w1 ++ [Logged (Extracting (name filepath))])).
    unfold mbind at 1, M_bind at 1.
    pose proof (expand_target_grows expand_dir w2) as Ht.
    change (files w2) with (files w1) in Ht.
    destruct (expand_target cache expand_dir w2) as [[target|e] w3]; simpl in *;
      [|by eapply FsProps.grows_trans].
    pose proof (expand_grows filepath target w3) as He.
    destruct (expand filepath target w3) as [[[]|e] w4]; simpl in *;
      (eapply FsProps.grows_trans; [done|]; by eapply FsProps.grows_trans).
Qed.

Lemma check_files_grows (force_cache uses_cache : bool)
    (needs : list (string * (string * option string))) (w : world) :
  grows (files w)
        (files (check_files base_url cache fetch force_cache uses_cache needs w).2).
Proof using fetch_grows.
  revert uses_cache w. induction needs as [|need needs IH]; intros uses_cache w.
  - apply FsProps.grows_refl.
  - cbn [check_files]. unfold mbind, M_bind.
    pose proof (check_file_grows force_cache uses_cache need w) as Hn.
    destruct (check_file _ _ _ force_cache uses_cache need w) as [[u|e] w1];
      simpl in *; [|done].
    eapply FsProps.grows_trans; [done|apply IH].
Qed.

Lemma load_grows (force_cache : bool)
    (needs : list (string * (string * option string))) (w : world) :
  grows (files w) (files (load base_url cache needs fetch false force_cache w).2).
Proof using fetch_grows.
  unfold load. run. rewrite andb_false_r. simpl.
  destruct (path_exists (files w) cache) eqn:E; simpl.
  - pose proof (check_files_grows force_cache false needs w) as Hc.
    destruct (check_files _ _ _ force_cache false needs w) as [[u|e] w2];
      simpl in *; [|done].
    by destruct u.
  - pose proof (mkdir_grows true false cache w) as Hmk. unfold on_files in Hmk.
    destruct (mkdir true false cache (files w)) as [σ|e]; simpl in *; [|done].
    pose proof (check_files_grows force_cache false needs (World σ (events w))) as Hc.
    destruct (check_files _ _ _ force_cache false needs _) as [[u|e] w2];
      simpl in *; [|by eapply FsProps.grows_trans].
    destruct u; simpl; by eapply FsProps.grows_trans.
Qed.

End Keeps.

(** Without [force_download], [load] takes nothing away when the downloader
    takes nothing away: whatever the flag [force_cache] and whatever the
    outcome (a failed download, a broken archive, a missing artifact), every
    directory that was there is there afterwards, and there is a file
    wherever there was one. *)
Theorem load_without_force_download_keeps_the_files (base_url : string) (cache : path)
    (needs : list (string * (string * option string)))
    (fetch : string → path → fs → result path * fs) (force_cache : bool) (w : world) :
  (∀ url σ, grows σ (fetch url cache σ).2) →
  grows (files w) (files (load base_url cache needs fetch false force_cache w).2).
Proof. intros Hfetch. by apply load_grows. Qed.

Lemma load_without_force_download_keeps_the_files_witness :
  let w := World {[ ["cache"] := Dir;
                    ["cache"; "version.info"] := File (Bytes "4.0.1") ]} [] in
  grows (files w)
        (files (load "http://hl7.org/fhir" ["cache"] FHIRLoader_needs
                     (λ _ _ σ, (Raise DownloadError, σ)) false false w).2).
Proof.
  intros w.
  apply (load_without_force_download_keeps_the_files "http://hl7.org/fhir" ["cache"]
           FHIRLoader_needs (λ _ _ σ, (Raise DownloadError, σ)) false w).
  intros url σ. simpl. apply FsProps.grows_refl.
Defined.

(** ** What [load] asks of the network *)

Lemma logs_refl (w : world) : logs [] [] w w.
Proof. exists []. by rewrite app_nil_r. Qed.

Lemma logs_same (w w' : world) : events w' = events w → logs [] [] w w'.
Proof. intros H. exists []. by rewrite app_nil_r. Qed.

Lemma logs_trans (u1 u2 : list string) (d1 d2 : list path) (w1 w2 w3 : world) :
  logs u1 d1 w1 w2 → logs u2 d2 w2 w3 → logs (u1 ++ u2) (d1 ++ d2) w1 w3.
Proof.
  intros (es1 & H1 & Hu1 & Hd1) (es2 & H2 & Hu2 & Hd2). exists (es1 ++ es2).
  split; [by rewrite H2, H1, app_assoc|].
  unfold fetched, deleted. rewrite !omap_app. split; by apply sublist_app.
Qed.

Lemma logs_weaken (u u' : list string) (d d' : list path) (w w' : world) :
  logs u d w w' → u `sublist_of` u' → d `sublist_of` d' → logs u' d' w w'.
Proof.
  intros (es & H & Hu & Hd) Hu' Hd'. exists es. split; [done|].
  split; by etrans.
Qed.

Lemma logs_bind {A B : Type} (c : M world A) (k : A → M world B)
    (u1 u2 : list string) (d1 d2 : list path) (w : world) :
  logs u1 d1 w (c w).2 →
  (∀ a w1, logs u2 d2 w1 (k a w1).2) →
  logs (u1 ++ u2) (d1 ++ d2) w ((c ≫= k) w).2.
Proof.
  intros Hc Hk. unfold mbind, M_bind. specialize (Hk).
  destruct (c w) as [[a|e] w1]; simpl in *.
  - eapply logs_trans; [done|apply Hk].
  - eapply logs_weaken; [done|by apply sublist_inserts_r..].
Qed.

Lemma logs_emit (e : event) (w : world) :
  logs (fetched [e]) (deleted [e]) w (emit e w).2.
Proof. exists [e]. done. Qed.

Lemma logs_on_files (f : fs → result fs) (w : world) : logs [] [] w (on_files f w).2.
Proof. apply logs_same. unfold on_files. by destruct (f (files w)). Qed.

Lemma run_ops_logs (ops : list fs_op) (w : world) :
  logs [] [] w (for_each run_op ops w).2.
Proof.
  revert w. induction ops as [|op ops IH]; intros w; simpl; [apply logs_refl|].
  apply (logs_bind _ _ [] [] [] []); [|by intros].
  destruct op; apply logs_on_files.
Qed.

Lemma expand_logs (filepath target : path) (w : world) :
  logs [] [] w (expand filepath target w).2.
Proof.
  unfold expand. unfold mbind at 1, M_bind at 1, get. simpl.
  apply (logs_bind _ _ [] [] [] []).
  { unfold assert. destruct (_ && _); apply logs_refl. }
  intros _ w1. apply (logs_bind _ _ [] [] [] []); [apply (logs_emit (Printed _))|].
  intros _ w2. apply (logs_bind _ _ [] [] [] []); [apply logs_on_files|].
  intros _ w3. unfold mbind at 1, M_bind at 1, get. simpl.
  apply (logs_bind _ _ [] [] [] []); [apply logs_refl|].
  intros all_members w4. apply (logs_bind _ _ [] [] [] []); [apply logs_refl|].
  intros ops w5. apply run_ops_logs.
Qed.

Section Asks.

Variable base_url : string.
Variable cache : path.
Variable fetch : string → path → fs → result path * fs.

Lemma expand_target_logs (expand_dir : option string) (w : world) :
  logs [] [] w (expand_target cache expand_dir w).2.
Proof.
  unfold expand_target. destruct expand_dir as [d|]; [|apply logs_refl].
  destruct (truthy d); [|apply logs_refl].
  unfold mbind at 1, M_bind at 1, get. simpl.
  apply (logs_bind _ _ [] [] [] []); [|intros; apply logs_refl].
  destruct (negb _); [apply logs_on_files|apply logs_refl].
Qed.

Lemma download_logs (filename : string) (w : world) :
  logs [base_url +:+ "/" +:+ filename] [] w
       (download base_url cache fetch filename w).2.
Proof.
  unfold download, call_fetch, emit, modify, mbind, M_bind. simpl.
  destruct (fetch _ cache (files w)) as [r σ]. simpl.
  exists [Printed (Url (base_url +:+ "/" +:+ filename));
          Fetched (base_url +:+ "/" +:+ filename)].
  split; [by rewrite <- app_assoc|done].
Qed.

Lemma check_file_logs (force_cache uses_cache : bool)
    (need : string * (string * option string)) (w : world) :
  logs [url_of base_url need] [] w
       (check_file base_url cache fetch force_cache uses_cache need w).2.
Proof.
  destruct need as [local [remote expand_dir]]. unfold check_file, url_of.
  unfold mbind at 1, M_bind at 1, get. simpl.
  destruct (negb _); [|eapply logs_weaken; [apply logs_refl|by apply sublist_nil_l..]].
  apply (logs_bind _ _ [] _ [] []).
  { destruct force_cache; apply logs_refl. }
  intros _ w1. apply (logs_bind _ _ [] _ [] []); [apply (logs_emit (Logged _))|].
  intros _ w2. apply (logs_bind _ _ [_] [] [] []); [apply download_logs|].
  intros filepath w3. apply (logs_bind _ _ [] [] [] []); [|intros; apply logs_refl].
  case_bool_decide; [|apply logs_refl].
  apply (logs_bind _ _ [] [] [] []); [apply (logs_emit (Logged _))|].
  intros _ w4. apply (logs_bind _ _ [] [] [] []); [apply expand_target_logs|].
  intros target w5. apply expand_logs.
Qed.

Lemma check_files_logs (force_cache uses_cache : bool)
    (needs : list (string * (string * option string))) (w : world) :
  logs (map (url_of base_url) needs) [] w
       (check_files base_url cache fetch force_cache uses_cache needs w).2.
Proof.
  revert uses_cache w. induction needs as [|need needs IH]; intros uses_cache w.
  - apply logs_refl.
  - cbn [check_files map].
    apply (logs_bind _ _ [_] _ [] []); [apply check_file_logs|].
    intros u w1. apply IH.
Qed.

End Asks.

(** Whatever the flags and the outcome, [load] only appends events; the
    URLs it hands to the downloader are URLs of the manifest, each asked
    for at most once and in the order of the manifest; and the only
    directory it may delete is the cache, once, and only with
    [force_download]. *)
Theorem load_fetches_the_manifest_only (base_url : string) (cache : path)
    (needs : list (string * (string * option string)))
    (fetch : string → path → fs → result path * fs)
    (force_download force_cache : bool) (w : world) :
  ∃ es,
    events (load base_url cache needs fetch force_download force_cache w).2
    = events w ++ es
    ∧ fetched es `sublist_of` map (url_of base_url) needs
    ∧ deleted es `sublist_of` (if force_download then [cache] else []).
Proof.
  change (logs (map (url_of base_url) needs) (if force_download then [cache] else [])
               w (load base_url cache needs fetch force_download force_cache w).2).
  unfold load.
  apply (logs_bind _ _ [] _ [] _).
  { destruct force_download; [|apply logs_refl].
    unfold assert. destruct (negb force_cache); apply logs_refl. }
  intros _ w1. unfold mbind at 1, M_bind at 1, get. simpl.
  eapply logs_weaken;
    [apply (logs_bind _ _ [] (map (url_of base_url) needs)
                      (if force_download then [cache] else []) [])
    |done|by rewrite app_nil_r].
  { destruct force_download; [|rewrite andb_false_r; apply logs_refl].
    destruct (path_exists (files w1) cache); simpl;
      [|eapply logs_weaken; [apply logs_refl|by apply sublist_nil_l..]].
    apply (logs_bind _ _ [] [] [_] []); [apply (logs_emit (Deleted cache))|].
    intros _ w2. apply logs_on_files. }
  intros _ w2. unfold mbind at 1, M_bind at 1, get. simpl.
  apply (logs_bind _ _ [] _ [] []).
  { destruct (negb _); [apply logs_on_files|apply logs_refl]. }
  intros _ w3.
  eapply logs_weaken;
    [apply (logs_bind _ _ (map (url_of base_url) needs) [] [] [])
    |by rewrite app_nil_r|done].
  { apply check_files_logs. }
  intros u w4. apply (logs_bind _ _ [] [] [] []); [|intros; apply logs_refl].
  destruct u; [apply (logs_emit (Logged _))|apply logs_refl].
Qed.

(** ** A loaded cache *)

Lemma path_exists_grows (σ σ' : fs) (p : path) :
  grows σ σ' → path_exists σ p = true → path_exists σ' p = true.
Proof.
  intros Hg. unfold path_exists. pose proof (FsProps.resolve_grows σ σ' p Hg) as H.
  destruct (resolve σ p); try done.
  - by rewrite H.
  - by destruct H as [c' ->].
Qed.

Section Again.

Variable base_url : string.
Variable cache : path.
Variable needs : list (string * (string * option string)).
Variable fetch : string → path → fs → result path * fs.

Hypothesis fetch_grows : ∀ url σ, grows σ (fetch url cache σ).2.
Hypothesis fetch_lands : ∀ need σ filepath σ',
  need ∈ needs →
  fetch (url_of base_url need) cache σ = (Ok filepath, σ') →
  path_exists σ' (joinpath cache (parts need.1)) = true.

Lemma check_file_present (force_cache uses_cache u : bool)
    (need : string * (string * option string)) (w w' : world) :
  need ∈ needs →
  check_file base_url cache fetch force_cache uses_cache need w = (Ok u, w') →
  path_exists (files w') (joinpath cache (parts need.1)) = true.
Proof using fetch_grows fetch_lands.
  intros Hin. pose proof (fetch_lands need) as Hland. specialize (Hland).
  destruct need as [local [remote expand_dir]]. unfold url_of in Hland. simpl in Hland.
  unfold check_file. unfold mbind at 1, M_bind at 1, get. simpl.
  destruct (path_exists (files w) (joinpath cache (parts local))) eqn:Hex; simpl.
  { unfold mret, M_ret. by intros [= _ <-]. }
  destruct force_cache; simpl.
  { unfold mbind, M_bind, raise. simpl. done. }
  unfold mbind at 1, M_bind at 1, mret, M_ret. simpl.
  unfold mbind at 1, M_bind at 1, emit, modify. simpl.
  unfold mbind at 1, M_bind at 1.
  unfold download at 1, call_fetch, emit, modify. unfold mbind at 1, M_bind at 1. simpl.
  destruct (fetch (base_url +:+ "/" +:+ remote) cache (files w)) as [[filepath|e] σ1]
    eqn:Hfetch; simpl; [|done].
  specialize (Hland _ _ _ Hin Hfetch).
  unfold mbind at 1, M_bind at 1.
  case_bool_decide as Hzip; simpl; [|by intros [= _ <-]].
  unfold mbind at 1, M_bind at 1, emit, modify. simpl.
  unfold mbind at 1, M_bind at 1.
  match goal with |- context [expand_target cache expand_dir ?w2] =>
    pose proof (expand_target_grows cache expand_dir w2) as Ht;
    destruct (expand_target cache expand_dir w2) as [[target|e] w3]
  end; simpl in *; [|done].
  pose proof (expand_grows filepath target w3) as He.
  destruct (expand filepath target w3) as [[[]|e] w4]; simpl in *; [|done].
  intros [= _ <-].
  eapply path_exists_grows; [exact He|]. by eapply path_exists_grows.
Qed.

Lemma check_files_present (force_cache uses_cache u : bool)
    (entries : list (string * (string * option string))) (w w' : world) :
  entries ⊆ needs →
  check_files base_url cache fetch force_cache uses_cache entries w = (Ok u, w') →
  ∀ need, need ∈ entries →
    path_exists (files w') (joinpath cache (parts need.1)) = true.
Proof using fetch_grows fetch_lands.
  revert uses_cache w. induction entries as [|entry entries IH];
    intros uses_cache w Hsub.
  - intros _ need Hneed. by apply elem_of_nil in Hneed.
  - cbn [check_files]. unfold mbind, M_bind.
    destruct (check_file _ _ _ force_cache uses_cache entry w) as [[u1|e] w1] eqn:Hone;
      [|done].
    intros Hrest need [->|Hneed]%elem_of_cons.
    + pose proof (check_files_grows base_url cache fetch fetch_grows
                    force_cache u1 entries w1) as Hg.
      rewrite Hrest in Hg. simpl in Hg.
      eapply path_exists_grows; [exact Hg|].
      eapply check_file_present; [|exact Hone]. apply Hsub. by left.
    + eapply IH; [|exact Hrest|done]. intros x Hx. apply Hsub. by right.
Qed.

Lemma load_present (force_download force_cache : bool) (c : path) (w w' : world) :
  load base_url cache needs fetch force_download force_cache w = (Ok c, w') →
  path_exists (files w') cache = true
  ∧ ∀ need, need ∈ needs →
      path_exists (files w') (joinpath cache (parts need.1)) = true.
Proof using fetch_grows fetch_lands.
  unfold load. unfold mbind at 1, M_bind at 1.
  destruct ((if force_download then assert (negb force_cache) else mret ()) w)
    as [[[]|e] w0]; [|done].
  unfold mbind at 1, M_bind at 1, get. simpl.
  unfold mbind at 1, M_bind at 1.
  destruct ((if path_exists (files w0) cache && force_download
             then emit (Deleted cache);; on_files (rmtree cache) else mret ()) w0)
    as [[[]|e] w1]; [|done].
  unfold mbind at 1, M_bind at 1, get. simpl.
  unfold mbind at 1, M_bind at 1.
  destruct ((if negb (path_exists (files w1) cache)
             then on_files (mkdir true false cache) else mret ()) w1)
    as [[[]|e] w2] eqn:Hmk; [|done].
  assert (path_exists (files w2) cache = true) as Hcache.
  { destruct (path_exists (files w1) cache) eqn:Hex; simpl in Hmk.
    - unfold mret, M_ret in Hmk. by simplify_eq.
    - apply LoaderProps.on_files_ok in Hmk as [[_ Hdir]%FsProps.mkdir_ok _].
      unfold path_is_dir in Hdir. unfold path_exists.
      by destruct (resolve (files w2) cache). }
  unfold mbind at 1, M_bind at 1.
  destruct (check_files _ _ _ force_cache false needs w2) as [[u|e] w3] eqn:Hcheck;
    [|done].
  pose proof (check_files_grows base_url cache fetch fetch_grows
                force_cache false needs w2) as Hg.
  rewrite Hcheck in Hg. simpl in Hg.
  pose proof (check_files_present force_cache false u needs w2 w3
                (λ x Hx, Hx) Hcheck) as Hall.
  assert (files w' = files w3 → path_exists (files w') cache = true
          ∧ ∀ need, need ∈ needs →
              path_exists (files w') (joinpath cache (parts need.1)) = true) as Hend.
  { intros ->. split; [by eapply path_exists_grows|done]. }
  unfold mbind, M_bind, mret, M_ret, emit, modify.
  destruct u; simpl; intros [= _ <-]; by apply Hend.
Qed.

End Again.

(** A cache that [load] has filled is a cache that [load] accepts without
    the network.  Assume of the downloader that it takes nothing away and
    that, when it succeeds for an artifact of the manifest, the artifact is
    in the cache under its local name.  Then after any successful [load], a
    [load] in cache-only mode succeeds: it fetches nothing, changes no file,
    and logs the cache notice (when the manifest is not empty). *)
Theorem loaded_cache_needs_no_network (base_url : string) (cache : path)
    (needs : list (string * (string * option string)))
    (fetch : string → path → fs → result path * fs)
    (force_download force_cache : bool) (c : path) (w w' : world) :
  (∀ url σ, grows σ (fetch url cache σ).2) →
  (∀ need σ filepath σ',
     need ∈ needs →
     fetch (url_of base_url need) cache σ = (Ok filepath, σ') →
     path_exists σ' (joinpath cache (parts need.1)) = true) →
  load base_url cache needs fetch force_download force_cache w = (Ok c, w') →
  c = cache
  ∧ load base_url cache needs fetch false true w'
    = (Ok cache,
       World (files w')
             (events w' ++ match needs with [] => [] | _ :: _ => [Logged UsingCache] end)).
Proof.
  intros Hgrows Hlands Hload.
  destruct (load_present base_url cache needs fetch Hgrows Hlands _ _ _ _ _ Hload)
    as [Hcache Hall].
  split.
  - revert Hload. unfold load. run.
    repeat match goal with
           | |- context [match ?x with _ => _ end] => destruct x; simpl; try done
           end; by intros [= <- _].
  - rewrite load_cache_only by done.
    destruct (List.find _ needs) as [need|] eqn:Hfind; [|done].
    apply find_some in Hfind as [Hin Hmiss]. unfold missing in Hmiss.
    rewrite Hall in Hmiss; [done|]. by apply list_elem_of_In.
Qed.

Lemma loaded_cache_needs_no_network_witness :
  let fetch := λ (_ : string) (c : path) (σ : fs),
    match write_file (joinpath c ["version.info"]) (Bytes "4.0.1") σ with
    | Ok σ' => (Ok (joinpath c ["version.info"]), σ')
    | Raise e => (Raise e, σ)
    end in
  let needs := [("version.info", ("version.info", @None string))] in
  ∃ w', load "http://hl7.org/fhir" ["cache"] needs fetch false false (World ∅ [])
        = (Ok ["cache"], w')
        ∧ load "http://hl7.org/fhir" ["cache"] needs fetch false true w'
          = (Ok ["cache"], World (files w') (events w' ++ [Logged UsingCache])).
Proof.
  intros fetch needs.
  assert (∃ w', load "http://hl7.org/fhir" ["cache"] needs fetch false false (World ∅ [])
                = (Ok ["cache"], w')) as [w' Hload]
    by (eexists; vm_compute; reflexivity).
  exists w'. split; [exact Hload|].
  refine (proj2 (loaded_cache_needs_no_network "http://hl7.org/fhir" ["cache"] needs fetch
                   false false ["cache"] (World ∅ []) w' _ _ Hload)).
  - intros url σ. unfold fetch.
    destruct (write_file (joinpath ["cache"] ["version.info"]) (Bytes "4.0.1") σ)
      as [σ'|e] eqn:Hw; simpl.
    + by apply FsProps.write_file_ok in Hw as [Hg _].
    + apply FsProps.grows_refl.
  - intros need σ filepath σ' ->%list_elem_of_singleton. unfold fetch.
    destruct (write_file (joinpath ["cache"] ["version.info"]) (Bytes "4.0.1") σ)
      as [σ1|e] eqn:Hw; [|done].
    intros [= _ <-]. apply FsProps.write_file_ok in Hw as [_ Hfile].
    replace (parts ("version.info", ("version.info", @None string)).1)
      with ["version.info"] by (vm_compute; reflexivity).
    unfold path_is_file in Hfile. unfold path_exists.
    by destruct (resolve σ1 (joinpath ["cache"] ["version.info"])).
Defined.

(** ** Where [expand] writes *)

(** In the single-root case the target does not confine the extraction.
    An entry [<root>/<rest>] whose [rest] starts with ['/'] (the name
    [root//etc/x], say) has an absolute inner path, and joining the target
    with an absolute path gives that path: the entry is made or written at
    [rest], the same place whatever the target, and it is there when
    [expand] has succeeded. *)
Theorem single_root_entry_can_leave_the_target (target : path)
    (all_members : list ZipInfo) (r : string) (m : ZipInfo) (rest : string) :
  roots (real_members all_members) = Ok {[ r ]} →
  m ∈ real_members all_members →
  filename m = (rstrip_slash r +:+ "/") +:+ rest →
  startswith rest "/" = true →
  (∃ root tl, parts rest = root :: tl ∧ is_anchor root = true)
  ∧ ∃ ops, extraction target all_members = Ok ops
      ∧ (if is_dir m then MkdirP (parts rest)
         else WriteFile (parts rest) (data m)) ∈ ops
      ∧ ∀ filepath w w',
          infolist filepath (files w) = Ok all_members →
          expand filepath target w = (Ok (), w') →
          extracted_at (files w') m (parts rest) = true.
Proof.
  intros Hroots Hm Hname Habs. split; [by apply LoaderProps.parts_absolute|].
  pose proof (LoaderProps.extraction_single_root target _ _ Hroots) as Hext.
  eexists. split; [exact Hext|].
  assert (strip_root (rstrip_slash r +:+ "/") target m
          = if is_dir m then [MkdirP (parts rest)]
            else [MkdirP (parent (parts rest)); WriteFile (parts rest) (data m)])
    as Hstrip.
  { unfold strip_root.
    rewrite Hname, LoaderProps.startswith_app, LoaderProps.drop_str_app. simpl.
    rewrite LoaderProps.joinpath_absolute by done.
    destruct (LoaderProps.parts_absolute rest Habs) as (root & tl & -> & _). done. }
  assert ((if is_dir m then MkdirP (parts rest) else WriteFile (parts rest) (data m))
          ∈ flat_map (strip_root (rstrip_slash r +:+ "/") target)
                     (real_members all_members)) as Hin.
  { apply list_elem_of_In, in_flat_map. exists m.
    split; [by apply list_elem_of_In|]. rewrite Hstrip.
    destruct (is_dir m); [by left|right; by left]. }
  split; [done|].
  intros filepath w w' Hinfo Hexp.
  destruct (LoaderProps.expand_ok _ _ _ _ _ Hinfo Hexp) as (ops & Hops & _ & Hdone).
  rewrite Hext in Hops. injection Hops as <-.
  specialize (Hdone _ Hin). unfold extracted_at. by destruct (is_dir m).
Qed.

Lemma single_root_entry_can_leave_the_target_witness :
  let archive := [Member "root//etc/x" "X"] in
  (∃ root tl, parts "/etc/x" = root :: tl ∧ is_anchor root = true)
  ∧ ∃ ops, extraction ["cache"; "out"] archive = Ok ops
      ∧ WriteFile ["/"; "etc"; "x"] "X" ∈ ops
      ∧ ∀ filepath w w',
          infolist filepath (files w) = Ok archive →
          expand filepath ["cache"; "out"] w = (Ok (), w') →
          extracted_at (files w') (Member "root//etc/x" "X") ["/"; "etc"; "x"] = true.
Proof.
  intros archive.
  apply (single_root_entry_can_leave_the_target ["cache"; "out"] archive "root"
           (Member "root//etc/x" "X") "/etc/x").
  - vm_compute. reflexivity.
  - vm_compute. left.
  - vm_compute. reflexivity.
  - vm_compute. reflexivity.
Defined.

Lemma prefix_parent (p q : path) : q ≠ [] → p `prefix_of` parent (p ++ q).
Proof.
  intros Hq. unfold parent. destruct (is_root (p ++ q)).
  - by apply prefix_app_r.
  - rewrite removelast_app by done. by apply prefix_app_r.
Qed.

Lemma extract_member_below (target : path) (m : ZipInfo) (op : fs_op) :
  op ∈ extract_member target m →
  normpath target `prefix_of` op_path op ∨ op = MkdirP (parent (normpath target)).
Proof.
  unfold extract_member, normpath.
  rewrite LoaderProps.normpath_go_app by apply LoaderProps.arcname_plain.
  destruct (is_dir m).
  - intros ->%list_elem_of_singleton. left. simpl. by apply prefix_app_r.
  - intros [->|[->|[]%elem_of_nil]%elem_of_cons]%elem_of_cons; simpl.
    + destruct (arcname m) as [|x xs] eqn:Harc.
      * right. by rewrite app_nil_r.
      * left. by apply prefix_parent.
    + left. by apply prefix_app_r.
Qed.

(** In the other case (no top-level name, or several) every call [expand]
    makes on the file system stays below the target, whatever the names in
    the archive: [zipfile] drops the empty, ["."] and [".."] segments of a
    name, so the path of each call starts with the normalised target.  The
    one exception is the directory above the target, which is made (if it
    is not there) for a file whose name has no segment left. *)
Theorem several_roots_stay_below_the_target (target : path)
    (all_members : list ZipInfo) (rs : gset string) (ops : list fs_op) :
  roots (real_members all_members) = Ok rs →
  size rs ≠ 1 →
  extraction target all_members = Ok ops →
  Forall (λ op, normpath target `prefix_of` op_path op
                ∨ op = MkdirP (parent (normpath target))) ops.
Proof.
  intros Hroots Hsize. unfold extraction. rewrite Hroots.
  rewrite bool_decide_eq_false_2 by done.
  change (List.filter (λ m, negb (noise m)) ?l) with (real_members l).
  destruct (LoaderProps.extractall_names target all_members
              (map filename (real_members all_members)))
    as (ops' & -> & _ & Hfrom); [apply LoaderProps.real_names|].
  intros [= <-]. apply Forall_forall. intros op Hop.
  destruct (Hfrom op Hop) as (n & m & _ & _ & Hmem).
  by eapply extract_member_below.
Qed.

Lemma several_roots_stay_below_the_target_witness :
  Forall (λ op, normpath ["cache"; "out"] `prefix_of` op_path op
                ∨ op = MkdirP (parent (normpath ["cache"; "out"])))
         [MkdirP ["cache"; "out"; "a"]; WriteFile ["cache"; "out"; "a"; "x"] "1";
          MkdirP ["cache"; "out"; "b"; "etc"];
          WriteFile ["cache"; "out"; "b"; "etc"; "y"] "2"].
Proof.
  apply (several_roots_stay_below_the_target ["cache"; "out"]
           [Member "a/x" "1"; Member "b/../../etc/y" "2"] (list_to_set ["a"; "b"])).
  - vm_compute. reflexivity.
  - vm_compute. lia.
  - vm_compute. reflexivity.
Defined.

(** ** The cache notice *)

Section Notice.

Variable base_url : string.
Variable cache : path.
Variable fetch : string → path → fs → result path * fs.

Hypothesis fetch_grows : ∀ url σ, grows σ (fetch url cache σ).2.

Lemma check_file_cached (force_cache uses_cache : bool)
    (need : string * (string * option string)) (w : world) :
  path_exists (files w) (joinpath cache (parts need.1)) = true →
  check_file base_url cache fetch force_cache uses_cache need w = (Ok true, w).
Proof.
  intros Hex. destruct need as [local remote]. simpl in Hex.
  unfold check_file. unfold mbind, M_bind, get. simpl. by rewrite Hex.
Qed.

Lemma check_file_mono (force_cache u : bool)
    (need : string * (string * option string)) (w w' : world) :
  check_file base_url cache fetch force_cache true need w = (Ok u, w') → u = true.
Proof.
  destruct need as [local [remote expand_dir]]. unfold check_file.
  unfold mbind at 1, M_bind at 1, get. simpl.
  destruct (negb _); [|by intros [= <- _]].
  unfold mbind, M_bind, mret, M_ret.
  repeat match goal with
         | |- context [match ?x with _ => _ end] => destruct x; simpl; try done
         end; by intros [= <- _].
Qed.

Lemma check_files_mono (force_cache u : bool)
    (entries : list (string * (string * option string))) (w w' : world) :
  check_files base_url cache fetch force_cache true entries w = (Ok u, w') → u = true.
Proof.
  revert w. induction entries as [|entry entries IH]; intros w.
  - by intros [= <- _].
  - cbn [check_files]. unfold mbind, M_bind.
    destruct (check_file _ _ _ force_cache true entry w) as [[u1|e] w1] eqn:Hone;
      [|done].
    apply check_file_mono in Hone as ->. apply IH.
Qed.

Lemma check_files_seen (force_cache uses_cache u : bool)
    (entries : list (string * (string * option string)))
    (need : string * (string * option string)) (w w' : world) :
  need ∈ entries →
  path_exists (files w) (joinpath cache (parts need.1)) = true →
  check_files base_url cache fetch force_cache uses_cache entries w = (Ok u, w') →
  u = true.
Proof using fetch_grows.
  revert uses_cache w. induction entries as [|entry entries IH];
    intros uses_cache w Hin Hex; [by apply elem_of_nil in Hin|].
  cbn [check_files]. unfold mbind, M_bind.
  apply elem_of_cons in Hin as [<-|Hin].
  - rewrite check_file_cached by done. apply check_files_mono.
  - pose proof (check_file_grows base_url cache fetch fetch_grows
                  force_cache uses_cache entry w) as Hg.
    destruct (check_file _ _ _ force_cache uses_cache entry w) as [[u1|e] w1];
      [|done].
    simpl in Hg. apply IH; [done|]. by eapply path_exists_grows.
Qed.

End Notice.

(** The cache notice does not mean that nothing was downloaded.  Without
    [force_download], and with a downloader that takes nothing away, one
    artifact of the manifest in the cache before [load] is enough: a [load]
    that succeeds ends by logging the notice, whatever it had to download
    for the other artifacts. *)
Theorem partly_cached_load_logs_the_notice (base_url : string) (cache : path)
    (needs : list (string * (string * option string)))
    (fetch : string → path → fs → result path * fs) (force_cache : bool)
    (need : string * (string * option string)) (c : path) (w w' : world) :
  (∀ url σ, grows σ (fetch url cache σ).2) →
  need ∈ needs →
  path_exists (files w) (joinpath cache (parts need.1)) = true →
  load base_url cache needs fetch false force_cache w = (Ok c, w') →
  ∃ es, events w' = events w ++ es ++ [Logged UsingCache].
Proof.
  intros Hgrows Hin Hex. unfold load. run. rewrite andb_false_r. simpl.
  assert (∀ w1, grows (files w) (files w1) → events w1 = events w →
            match check_files base_url cache fetch force_cache false needs w1 with
            | (Ok a, s') =>
                let (r, s'0) :=
                  (if a then λ s, (Ok (), World (files s) (events s ++ [Logged UsingCache]))
                   else λ s, (Ok (), s)) s' in
                match r with
                | Ok _ => (Ok cache, s'0)
                | Raise e => (Raise e, s'0)
                end
            | (Raise e, s') => (Raise e, s')
            end = (Ok c, w') →
            ∃ es, events w' = events w ++ es ++ [Logged UsingCache]) as Hrest.
  { intros w1 Hg Hev.
    pose proof (check_files_logs base_url cache fetch force_cache false needs w1)
      as (es & Hes & _).
    destruct (check_files _ _ _ force_cache false needs w1) as [[u|e] w2] eqn:Hcheck;
      [|done].
    apply (check_files_seen base_url cache fetch Hgrows _ _ _ _ need) in Hcheck as ->;
      [|done|by eapply path_exists_grows].
    simpl in *. intros [= _ <-]. exists es. simpl.
    by rewrite Hes, Hev, app_assoc. }
  destruct (path_exists (files w) cache); simpl.
  - apply Hrest; [apply FsProps.grows_refl|done].
  - pose proof (mkdir_grows true false cache w) as Hmk. unfold on_files in Hmk.
    destruct (mkdir true false cache (files w)) as [σ|e]; simpl in *; [|done].
    by apply Hrest.
Qed.

Lemma partly_cached_load_logs_the_notice_witness :
  let fetch := λ (_ : string) (c : path) (σ : fs),
    match write_file (joinpath c ["b.txt"]) (Bytes "B") σ with
    | Ok σ' => (Ok (joinpath c ["b.txt"]), σ')
    | Raise e => (Raise e, σ)
    end in
  let needs := [("a.txt", ("a.txt", @None string)); ("b.txt", ("b.txt", @None string))] in
  let w := World {[ ["cache"] := Dir; ["cache"; "a.txt"] := File (Bytes "A") ]} [] in
  ∃ w', load "http://hl7.org/fhir" ["cache"] needs fetch false false w = (Ok ["cache"], w')
        ∧ fetched (events w') = ["http://hl7.org/fhir/b.txt"]
        ∧ ∃ es, events w' = events w ++ es ++ [Logged UsingCache].
Proof.
  intros fetch needs w.
  assert (∃ w', load "http://hl7.org/fhir" ["cache"] needs fetch false false w
                = (Ok ["cache"], w') ∧ fetched (events w') = ["http://hl7.org/fhir/b.txt"])
    as (w' & Hload & Hfetched)
    by (eexists; split; vm_compute; reflexivity).
  exists w'. split; [exact Hload|]. split; [exact Hfetched|].
  refine (partly_cached_load_logs_the_notice "http://hl7.org/fhir" ["cache"] needs fetch
            false ("a.txt", ("a.txt", None)) ["cache"] w w' _ _ _ Hload).
  - intros url σ. unfold fetch.
    destruct (write_file (joinpath ["cache"] ["b.txt"]) (Bytes "B") σ)
      as [σ'|e] eqn:Hw; simpl.
    + by apply FsProps.write_file_ok in Hw as [Hg _].
    + apply FsProps.grows_refl.
  - left.
  - vm_compute. reflexivity.
Defined.

End LoaderExtra.
